(** * The on-chip-loader (OCL) flash driver: model and properties

    A shallow embedding of the OCL flash driver ([ocl_erase], [ocl_write],
    [ocl_probe], [ocl_auto_probe]) together with the properties that its
    design document states about it.

    - 32-bit C integers are mathematical integers with the conversions
      written out ([to_u32], [to_int]).
    - The debug communication channel is an external collaborator: driver
      functions are trees of channel requests ([dcc]), and a run is a tree
      path described by the list of requests with the answers the channel
      gave ([exec]).
    - The staging buffer is a list updated by index; a store or load
      outside it is a fault, never a silent no-op.

    The FreeBSD GPIO bit-bang driver of the same source tree is modelled
    in the module [Gpio]: its static variables are a store, its functions
    return the calls of libgpio they make. *)

From Stdlib Require Import ZArith Lia Bool.
From Stdlib.Strings Require Import Byte.
From stdpp Require Import base tactics option list numbers functions.
From coqutil Require Import Z.bitblast.

Local Open Scope Z_scope.

(** ** Fixed-width integers *)

(** Conversion to [uint32_t]. *)
Definition to_u32 (z : Z) : Z := z mod 2 ^ 32.

(** Conversion to [int] (two's complement, 32 bits). *)
Definition to_int (z : Z) : Z := (z + 2 ^ 31) mod 2 ^ 32 - 2 ^ 31.

(** The value of a [uint8_t]. *)
Definition u8 (b : byte) : Z := Z.of_N (Byte.to_N b).

(** The C comparison [a != b], an [int] that is 0 or 1. *)
Definition c_ne (a b : Z) : Z := if a =? b then 0 else 1.

(** ** Data of the flash layer *)

(** Modelled from the spec: [struct flash_sector] is declared in flash.h,
    which is not among the sources; offset and size are 32-bit unsigned,
    the erased and protected marks are tri-state integers (-1 unknown). *)
Record flash_sector := {
  sector_offset : Z;
  sector_size : Z;
  is_erased : Z;
  is_protected : Z
}.

Record ocl_priv := {
  buflen : Z;
  bufalign : Z
}.

(** Modelled from the spec: [struct flash_bank] is declared in flash.h,
    which is not among the sources; base address, total size and sector
    count are 32-bit unsigned.  [target_state] stands for
    [bank->target->state]. *)
Record flash_bank := {
  base : Z;
  size : Z;
  num_sectors : Z;
  sectors : list flash_sector;
  target_state : Z;
  driver_priv : ocl_priv
}.

Definition set_base (v : Z) (b : flash_bank) : flash_bank :=
  {| base := v; size := size b; num_sectors := num_sectors b;
     sectors := sectors b; target_state := target_state b;
     driver_priv := driver_priv b |}.

Definition set_size (v : Z) (b : flash_bank) : flash_bank :=
  {| base := base b; size := v; num_sectors := num_sectors b;
     sectors := sectors b; target_state := target_state b;
     driver_priv := driver_priv b |}.

Definition set_num_sectors (v : Z) (b : flash_bank) : flash_bank :=
  {| base := base b; size := size b; num_sectors := v;
     sectors := sectors b; target_state := target_state b;
     driver_priv := driver_priv b |}.

Definition set_sectors (v : list flash_sector) (b : flash_bank) : flash_bank :=
  {| base := base b; size := size b; num_sectors := num_sectors b;
     sectors := v; target_state := target_state b;
     driver_priv := driver_priv b |}.

Definition set_driver_priv (v : ocl_priv) (b : flash_bank) : flash_bank :=
  {| base := base b; size := size b; num_sectors := num_sectors b;
     sectors := sectors b; target_state := target_state b;
     driver_priv := v |}.

(** ** Constants of the headers

    The opcodes of ocl.h, the error codes of the flash, target and log
    headers, the target state and the handshake bit are not among the
    sources; the driver is modelled for any values of them such that
    success is code 0 and the error codes of the flash layer are not.  The
    fields [uninit_word] and [uninit_sector] stand for the unspecified
    content of freshly allocated memory. *)
Class ocl_env := {
  OCL_FLASH_BLOCK : Z;
  OCL_ERASE_BLOCK : Z;
  OCL_ERASE_ALL : Z;
  OCL_PROBE : Z;
  OCL_CMD_DONE : Z;
  OCL_CHKS_INIT : Z;
  ERROR_OK : Z;
  ERROR_FLASH_BANK_INVALID : Z;
  ERROR_FLASH_BANK_NOT_PROBED : Z;
  ERROR_FLASH_OPERATION_FAILED : Z;
  ERROR_TARGET_NOT_RUNNING : Z;
  ERROR_TARGET_TIMEOUT : Z;
  TARGET_RUNNING : Z;
  EICE_COMM_CTRL_WBIT : Z;
  uninit_word : Z;
  uninit_sector : flash_sector;
  ERROR_OK_zero : ERROR_OK = 0;
  ERROR_FLASH_BANK_INVALID_nonzero : ERROR_FLASH_BANK_INVALID ≠ 0;
  ERROR_FLASH_OPERATION_FAILED_nonzero : ERROR_FLASH_OPERATION_FAILED ≠ 0
}.

(** ** The debug communication channel *)

(** A driver function is a tree: it returns, or it calls one of the three
    channel primitives and continues with the answer.  [Send] carries the
    words handed to [embeddedice_send] and is answered by a return code;
    [Handshake] carries the polled bit and the timeout; [Receive] carries
    the number of words asked for and is answered by a return code and the
    word read. *)
Inductive dcc (R : Type) : Type :=
  | Ret (r : R)
  | Send (words : list Z) (k : Z → dcc R)
  | Handshake (hsbit timeout : Z) (k : Z → dcc R)
  | Receive (size : Z) (k : Z * Z → dcc R).
Arguments Ret {R} r.
Arguments Send {R} words k.
Arguments Handshake {R} hsbit timeout k.
Arguments Receive {R} size k.

Fixpoint dcc_bind {A B : Type} (f : A → dcc B) (m : dcc A) : dcc B :=
  match m with
  | Ret a => f a
  | Send ws k => Send ws (λ rc, dcc_bind f (k rc))
  | Handshake h t k => Handshake h t (λ rc, dcc_bind f (k rc))
  | Receive n k => Receive n (λ a, dcc_bind f (k a))
  end.

#[global] Instance dcc_ret : MRet dcc := @Ret.
#[global] Instance dcc_mbind : MBind dcc := @dcc_bind.

(** [embeddedice_send(jtag_info, buffer, size)] *)
Definition embeddedice_send (buffer : list Z) (size : nat) : dcc Z :=
  Send (take size buffer) Ret.

(** [embeddedice_handshake(jtag_info, hsbit, timeout)] *)
Definition embeddedice_handshake (hsbit timeout : Z) : dcc Z :=
  Handshake hsbit timeout Ret.

(** [embeddedice_receive(jtag_info, &word, 1)] *)
Definition embeddedice_receive (size : Z) : dcc (Z * Z) :=
  Receive size Ret.

(** One request of a run, with the answer of the channel. *)
Inductive event :=
  | EvSend (words : list Z) (rc : Z)
  | EvHandshake (hsbit timeout rc : Z)
  | EvReceive (size rc word : Z).

(** [exec p tr r]: the run of [p] in which the channel answers as recorded
    in [tr] returns [r]. *)
Inductive exec {R : Type} : dcc R → list event → R → Prop :=
  | exec_ret r :
      exec (Ret r) [] r
  | exec_send ws k rc tr r :
      exec (k rc) tr r → exec (Send ws k) (EvSend ws rc :: tr) r
  | exec_handshake h t k rc tr r :
      exec (k rc) tr r → exec (Handshake h t k) (EvHandshake h t rc :: tr) r
  | exec_receive n k rc w tr r :
      exec (k (rc, w)) tr r → exec (Receive n k) (EvReceive n rc w :: tr) r.

(** ** Faults of the C memory model *)

Inductive fault := StagingOutOfBounds | PayloadOutOfBounds.

Inductive checked (A : Type) : Type :=
  | Ok (a : A)
  | Fault (f : fault).
Arguments Ok {A} a.
Arguments Fault {A} f.

#[global] Instance checked_ret : MRet checked := @Ok.
#[global] Instance checked_bind : MBind checked :=
  λ A B f m, match m with Ok a => f a | Fault e => Fault e end.

(** [*p] for a cursor [p] into the staging buffer. *)
Definition load (buf : list Z) (p : nat) : checked Z :=
  match buf !! p with
  | Some v => Ok v
  | None => Fault StagingOutOfBounds
  end.

(** [*p = v] for a cursor [p] into the staging buffer. *)
Definition store (buf : list Z) (p : nat) (v : Z) : checked (list Z) :=
  if decide (p < length buf)%nat then Ok (<[p:=v]> buf)
  else Fault StagingOutOfBounds.

(** What a call of [ocl_write] comes to: it returns a code, it faults, or
    the model ran out of loop iterations. *)
Inductive outcome :=
  | Returned (retval : Z)
  | Faulted (f : fault)
  | OutOfFuel.

Section Driver.
Context `{ocl_env}.

(** ** [ocl_erase] *)

(** The second half of [ocl_erase]: wait for the response, with the fixed
    timeout of 1 s, receive it into [dcc_buffer[1]] and judge it. *)
Definition erase_response (dcc_buffer : list Z) : dcc Z :=
  rc ← embeddedice_handshake EICE_COMM_CTRL_WBIT 1000;
  let retval := c_ne rc ERROR_OK in
  if negb (retval =? 0) then Ret retval else
  '(rc, word) ← embeddedice_receive 1;
  let retval := c_ne rc ERROR_OK in
  if negb (retval =? 0) then Ret retval else
  let dcc_buffer := <[1%nat:=word]> dcc_buffer in
  if negb (dcc_buffer !!! 1%nat =? OCL_CMD_DONE)
  then Ret ERROR_FLASH_OPERATION_FAILED
  else Ret ERROR_OK.

Definition ocl_erase (bank : flash_bank) (first last : Z) : dcc Z :=
  let dcc_buffer := replicate 3 uninit_word in
  (* check preconditions *)
  if num_sectors bank =? 0 then Ret ERROR_FLASH_BANK_NOT_PROBED else
  if negb (target_state bank =? TARGET_RUNNING)
  then Ret ERROR_TARGET_NOT_RUNNING else
  (* [last], an int, is compared with the unsigned [num_sectors - 1] *)
  if (first =? 0) && (to_u32 last =? to_u32 (num_sectors bank - 1)) then
    let dcc_buffer := <[0%nat:=OCL_ERASE_ALL]> dcc_buffer in
    rc ← embeddedice_send dcc_buffer 1;
    let retval := c_ne rc ERROR_OK in
    if negb (retval =? 0) then Ret retval else
    erase_response dcc_buffer
  else
    let dcc_buffer := <[0%nat:=OCL_ERASE_BLOCK]> dcc_buffer in
    let dcc_buffer := <[1%nat:=to_u32 first]> dcc_buffer in
    let dcc_buffer := <[2%nat:=to_u32 last]> dcc_buffer in
    rc ← embeddedice_send dcc_buffer 3;
    let retval := c_ne rc ERROR_OK in
    if negb (retval =? 0) then Ret retval else
    erase_response dcc_buffer.

(** ** [ocl_auto_probe] *)

Definition ocl_auto_probe (bank : flash_bank) : Z :=
  let ocl := driver_priv bank in
  if (buflen ocl =? 0) || (bufalign ocl =? 0)
  then ERROR_FLASH_BANK_NOT_PROBED
  else ERROR_OK.

(** ** [ocl_write] *)

(** The variables of the copy loop: the staging buffer and its cursor, the
    payload from the read cursor on, the byte position in the current word
    and the running checksum. *)
Record packer := {
  dcc_buffer : list Z;
  dcc_bufptr : nat;
  buffer : list byte;
  byteofs : Z;
  chksum : Z
}.

(** [*(buffer++)] *)
Definition next_byte (buffer : list byte) : checked (Z * list byte) :=
  match buffer with
  | b :: rest => Ok (u8 b, rest)
  | [] => Fault PayloadOutOfBounds
  end.

(** [*dcc_bufptr &= *(buffer++) << shift | mask], the common part of the
    four cases of the switch. *)
Definition merge_byte (st : packer) (lane : Z → Z)
    : checked (list Z * list byte) :=
  '(b, rest) ← next_byte (buffer st);
  w ← load (dcc_buffer st) (dcc_bufptr st);
  buf ← store (dcc_buffer st) (dcc_bufptr st) (Z.land w (lane b));
  Ok (buf, rest).

(** The body of the copy loop: [switch (byteofs++) ...]. *)
Definition pack_byte (st : packer) : checked packer :=
  match byteofs st with
  | 0 =>
      '(buf, rest) ← merge_byte st (λ b, Z.lor b 0xffffff00);
      Ok {| dcc_buffer := buf; dcc_bufptr := dcc_bufptr st; buffer := rest;
            byteofs := byteofs st + 1; chksum := chksum st |}
  | 1 =>
      '(buf, rest) ← merge_byte st (λ b, Z.lor (Z.shiftl b 8) 0xffff00ff);
      Ok {| dcc_buffer := buf; dcc_bufptr := dcc_bufptr st; buffer := rest;
            byteofs := byteofs st + 1; chksum := chksum st |}
  | 2 =>
      '(buf, rest) ← merge_byte st (λ b, Z.lor (Z.shiftl b 16) 0xff00ffff);
      Ok {| dcc_buffer := buf; dcc_bufptr := dcc_bufptr st; buffer := rest;
            byteofs := byteofs st + 1; chksum := chksum st |}
  | 3 =>
      '(buf, rest) ← merge_byte st
        (λ b, to_u32 (Z.lor (to_int (Z.shiftl b 24)) 0x00ffffff));
      w ← load buf (dcc_bufptr st);
      let chksum := Z.lxor (chksum st) w in
      let dcc_bufptr := S (dcc_bufptr st) in
      buf ← store buf dcc_bufptr 0xffffffff;
      Ok {| dcc_buffer := buf; dcc_bufptr := dcc_bufptr; buffer := rest;
            byteofs := 0; chksum := chksum |}
  | _ =>
      Ok {| dcc_buffer := dcc_buffer st; dcc_bufptr := dcc_bufptr st;
            buffer := buffer st; byteofs := byteofs st + 1;
            chksum := chksum st |}
  end.

(** [for (i = 0; i < runlen; i++)], entered with [n] iterations to go. *)
Fixpoint pack_bytes (n : nat) (st : packer) : checked packer :=
  match n with
  | O => Ok st
  | S n' => st' ← pack_byte st; pack_bytes n' st'
  end.

(** The length of the next chunk, an [int]: the test and both assignments
    are unsigned 32-bit arithmetic. *)
Definition chunk_runlen (ocl : ocl_priv) (offset count : Z) : Z :=
  if to_u32 (count + offset mod bufalign ocl) >? buflen ocl
  then to_int (to_u32 (buflen ocl - offset mod bufalign ocl))
  else to_int count.

(** From the header words to the checksum word: the block of one chunk,
    left in the staging buffer below the cursor. *)
Definition fill_block (ocl : ocl_priv) (staging : list Z)
    (payload : list byte) (offset runlen : Z) : checked packer :=
  buf ← store staging 0 (to_u32 (Z.lor OCL_FLASH_BLOCK runlen));
  buf ← store buf 1 offset;
  buf ← store buf 2 0xffffffff;
  (* copy data to DCC buffer in proper byte order and properly aligned *)
  st ← pack_bytes (Z.to_nat runlen)
         {| dcc_buffer := buf; dcc_bufptr := 2; buffer := payload;
            byteofs := (offset mod bufalign ocl) mod 4;
            chksum := OCL_CHKS_INIT |};
  (* add the remaining word to checksum *)
  st ← (if negb (byteofs st =? 0) then
          w ← load (dcc_buffer st) (dcc_bufptr st);
          Ok {| dcc_buffer := dcc_buffer st; dcc_bufptr := S (dcc_bufptr st);
                buffer := buffer st; byteofs := byteofs st;
                chksum := Z.lxor (chksum st) w |}
        else Ok st);
  buf ← store (dcc_buffer st) (dcc_bufptr st) (chksum st);
  Ok {| dcc_buffer := buf; dcc_bufptr := S (dcc_bufptr st);
        buffer := buffer st; byteofs := byteofs st; chksum := chksum st |}.

(** [while (count) ...], with at most [fuel] iterations. *)
Fixpoint write_loop (fuel : nat) (ocl : ocl_priv) (staging : list Z)
    (payload : list byte) (offset count : Z) : dcc outcome :=
  match fuel with
  | O => Ret OutOfFuel
  | S fuel' =>
    if count =? 0 then Ret (Returned ERROR_OK) else
    let runlen := chunk_runlen ocl offset count in
    match fill_block ocl staging payload offset runlen with
    | Fault f => Ret (Faulted f)
    | Ok st =>
      (* send the data *)
      retval ← embeddedice_send (dcc_buffer st) (dcc_bufptr st);
      if negb (retval =? ERROR_OK) then Ret (Returned retval) else
      (* wait for response, fixed timeout of 1 s *)
      rc ← embeddedice_handshake EICE_COMM_CTRL_WBIT 1000;
      let retval := c_ne rc ERROR_OK in
      if negb (retval =? 0) then Ret (Returned retval) else
      (* receive response *)
      '(rc, word) ← embeddedice_receive 1;
      let retval := c_ne rc ERROR_OK in
      if negb (retval =? 0) then Ret (Returned retval) else
      match store (dcc_buffer st) 0 word with
      | Fault f => Ret (Faulted f)
      | Ok buf =>
        if negb (buf !!! 0%nat =? OCL_CMD_DONE)
        then Ret (Returned ERROR_FLASH_OPERATION_FAILED) else
        write_loop fuel' ocl buf (buffer st)
          (to_u32 (offset + runlen)) (to_u32 (count - runlen))
      end
    end
  end.

Definition ocl_write (fuel : nat) (bank : flash_bank) (payload : list byte)
    (offset count : Z) : dcc outcome :=
  let ocl := driver_priv bank in
  (* check preconditions *)
  if (buflen ocl =? 0) || (bufalign ocl =? 0)
  then Ret (Returned ERROR_FLASH_BANK_NOT_PROBED) else
  if negb (target_state bank =? TARGET_RUNNING)
  then Ret (Returned ERROR_TARGET_NOT_RUNNING) else
  (* allocate buffer for max. ocl buffer + overhead *)
  let staging := replicate (Z.to_nat (buflen ocl / 4 + 3)) uninit_word in
  write_loop fuel ocl staging payload offset count.

(** ** [ocl_probe] *)

(** The loop that fills in the sector table, entered at index [i] with [n]
    iterations to go. *)
Fixpoint fill_sectors (n : nat) (i sectsize : Z) (sectors : list flash_sector)
    : list flash_sector :=
  match n with
  | O => sectors
  | S n' =>
    fill_sectors n' (i + 1) sectsize
      (<[Z.to_nat i := {| sector_offset := to_u32 (to_int (i * sectsize));
                          sector_size := to_u32 sectsize;
                          is_erased := -1;
                          is_protected := -1 |}]> sectors)
  end.

(** From the [realloc] of the sector table to the end of [ocl_probe]: the
    checks of the received geometry. *)
Definition probe_geometry (bank : flash_bank) : Z * flash_bank :=
  let bank :=
    set_sectors (resize (Z.to_nat (num_sectors bank)) uninit_sector
                   (sectors bank)) bank in
  if num_sectors bank =? 0 then (ERROR_FLASH_BANK_INVALID, bank) else
  if negb (size bank mod num_sectors bank =? 0)
  then (ERROR_FLASH_BANK_INVALID, bank) else
  let sectsize := to_int (size bank / num_sectors bank) in
  let bank :=
    set_sectors (fill_sectors (Z.to_nat (num_sectors bank)) 0 sectsize
                   (sectors bank)) bank in
  let bank :=
    if bufalign (driver_priv bank) =? 0
    then set_driver_priv {| buflen := buflen (driver_priv bank);
                            bufalign := 1 |} bank
    else bank in
  let ocl := driver_priv bank in
  if buflen ocl =? 0 then (ERROR_FLASH_BANK_INVALID, bank) else
  if (bufalign ocl >? buflen ocl) || negb (buflen ocl mod bufalign ocl =? 0)
  then (ERROR_FLASH_BANK_INVALID, bank) else
  if negb (buflen ocl mod 4 =? 0) then (ERROR_FLASH_BANK_INVALID, bank) else
  (ERROR_OK, bank).

(** One parameter of the loader: a handshake without timeout, then one
    received word; the receive is skipped when the handshake fails.  The
    result is the value of [retval] and the word. *)
Definition receive_parameter : dcc (Z * Z) :=
  rc ← embeddedice_handshake EICE_COMM_CTRL_WBIT 0;
  let retval := c_ne rc ERROR_OK in
  if negb (retval =? 0) then Ret (retval, uninit_word) else
  '(rc, word) ← embeddedice_receive 1;
  Ret (c_ne rc ERROR_OK, word).

Definition ocl_probe (bank : flash_bank) : dcc (Z * flash_bank) :=
  (* purge pending data in DCC *)
  _ ← embeddedice_receive 1;
  rc ← embeddedice_send [OCL_PROBE] 1;
  let retval := c_ne rc ERROR_OK in
  if negb (retval =? 0) then Ret (retval, bank) else
  (* wait for response, fixed timeout of 1 s *)
  rc ← embeddedice_handshake EICE_COMM_CTRL_WBIT 1000;
  let retval := c_ne rc ERROR_OK in
  if negb (retval =? 0) then Ret (retval, bank) else
  (* receive response *)
  '(rc, word) ← embeddedice_receive 1;
  let retval := c_ne rc ERROR_OK in
  if negb (retval =? 0) then Ret (retval, bank) else
  if negb (word =? OCL_CMD_DONE)
  then Ret (ERROR_FLASH_OPERATION_FAILED, bank) else
  (* receive and fill in parameters, one by one *)
  '(retval, word) ← receive_parameter;
  if negb (retval =? 0) then Ret (retval, bank) else
  let bank := set_base word bank in
  '(retval, word) ← receive_parameter;
  if negb (retval =? 0) then Ret (retval, bank) else
  let bank := set_size word bank in
  '(retval, word) ← receive_parameter;
  if negb (retval =? 0) then Ret (retval, bank) else
  let bank := set_num_sectors word bank in
  '(retval, word) ← receive_parameter;
  if negb (retval =? 0) then Ret (retval, bank) else
  let bank :=
    set_driver_priv {| buflen := Z.land word 0xffff;
                       bufalign := Z.shiftr word 16 |} bank in
  Ret (probe_geometry bank).

(** ** [ocl_flash_bank_command]

    [arch] is the return code of [arm7_9_get_arch_pointers]. *)
Definition ocl_flash_bank_command (argc arch : Z) (bank : flash_bank)
    : Z * flash_bank :=
  if argc <? 6 then (ERROR_FLASH_BANK_INVALID, bank) else
  if negb (arch =? ERROR_OK) then (arch, bank) else
  (ERROR_OK, set_driver_priv {| buflen := 0; bufalign := 1 |} bank).

(** ** Reading a block back *)

(** The words that [embeddedice_send] is given. *)
Definition block (st : packer) : list Z :=
  take (dcc_bufptr st) (dcc_buffer st).

(** The words of a block between the two header words and the last word. *)
Definition payload_words (blk : list Z) : list Z :=
  take (length blk - 3) (drop 2 blk).

(** Byte [k] of a word, byte 0 in bits 0 to 7. *)
Definition byte_lane (w k : Z) : Z := Z.land (Z.shiftr w (8 * k)) 0xff.

Definition lanes (w : Z) : list Z :=
  [byte_lane w 0; byte_lane w 1; byte_lane w 2; byte_lane w 3].

(** All byte slots of a word sequence, in address order. *)
Definition unpack_all (ws : list Z) : list Z := ws ≫= lanes.

(** The [n] data bytes of a word sequence whose first data byte sits at
    byte position [o mod 4] of the first word: the slots before it and the
    slots after the last data byte carry no data. *)
Definition unpack (o : Z) (n : nat) (ws : list Z) : list Z :=
  take n (drop (Z.to_nat (o mod 4)) (unpack_all ws)).

(** The slots that carry no data, before and after the data bytes. *)
Definition filler_before (o : Z) (ws : list Z) : list Z :=
  take (Z.to_nat (o mod 4)) (unpack_all ws).

Definition filler_after (o : Z) (n : nat) (ws : list Z) : list Z :=
  drop (Z.to_nat (o mod 4) + n) (unpack_all ws).

(** The checksum as the design document words it: an accumulator seeded
    with the initial constant, every word folded in with XOR, in order. *)
Definition xor_checksum (ws : list Z) : Z := foldl Z.lxor OCL_CHKS_INIT ws.

(** ** Chunks of a write *)

(** The chunks that the loop of [ocl_write] goes through when every chunk
    is acknowledged: start offset and length of each, in order. *)
Fixpoint chunks (fuel : nat) (ocl : ocl_priv) (offset count : Z)
    : list (Z * Z) :=
  match fuel with
  | O => []
  | S fuel' =>
    if count =? 0 then [] else
    let runlen := chunk_runlen ocl offset count in
    (offset, runlen)
      :: chunks fuel' ocl (to_u32 (offset + runlen)) (to_u32 (count - runlen))
  end.

(** [covers a b cs]: the chunks [cs] are laid end to end from [a] to [b],
    each of them non-empty: they cover the range from [a] up to [b]
    exactly once, in ascending order. *)
Fixpoint covers (a b : Z) (cs : list (Z * Z)) : Prop :=
  match cs with
  | [] => a = b
  | (s, n) :: cs' => s = a ∧ 0 < n ∧ covers (a + n) b cs'
  end.

(** [carries ocl payload x c blk]: the block [blk] is the one of chunk [c]
    of a write of [payload] at offset [x]: its header holds the length and
    the start of the chunk, its last word is the checksum of the words in
    between, and these words unpack to the bytes of the payload that the
    chunk spans. *)
Definition carries (ocl : ocl_priv) (payload : list byte) (x : Z)
    (c : Z * Z) (blk : list Z) : Prop :=
  x ≤ c.1
  ∧ ∃ ws,
      blk = [to_u32 (Z.lor OCL_FLASH_BLOCK c.2); c.1] ++ ws
            ++ [xor_checksum ws]
      ∧ unpack (c.1 mod bufalign ocl) (Z.to_nat c.2) ws
        = map u8 (take (Z.to_nat c.2) (drop (Z.to_nat (c.1 - x)) payload)).

(** The requests of one acknowledged chunk. *)
Definition chunk_events (blk : list Z) : list event :=
  [EvSend blk ERROR_OK;
   EvHandshake EICE_COMM_CTRL_WBIT 1000 ERROR_OK;
   EvReceive 1 ERROR_OK OCL_CMD_DONE].

(** ** Dialogue of a probe *)

(** The run of [ocl_probe] in which every request succeeds, the loader
    acknowledges the command and reports the four parameters. *)
Definition probe_dialogue (stale : Z * Z) (base size n bufword : Z)
    : list event :=
  [EvReceive 1 stale.1 stale.2;
   EvSend [OCL_PROBE] ERROR_OK;
   EvHandshake EICE_COMM_CTRL_WBIT 1000 ERROR_OK;
   EvReceive 1 ERROR_OK OCL_CMD_DONE;
   EvHandshake EICE_COMM_CTRL_WBIT 0 ERROR_OK;
   EvReceive 1 ERROR_OK base;
   EvHandshake EICE_COMM_CTRL_WBIT 0 ERROR_OK;
   EvReceive 1 ERROR_OK size;
   EvHandshake EICE_COMM_CTRL_WBIT 0 ERROR_OK;
   EvReceive 1 ERROR_OK n;
   EvHandshake EICE_COMM_CTRL_WBIT 0 ERROR_OK;
   EvReceive 1 ERROR_OK bufword].

(** The bank once the four parameters are stored, before the checks. *)
Definition with_parameters (bank : flash_bank) (base size n bufword : Z)
    : flash_bank :=
  set_driver_priv {| buflen := Z.land bufword 0xffff;
                     bufalign := Z.shiftr bufword 16 |}
    (set_num_sectors n (set_size size (set_base base bank))).

(** The word that request number [i] of a run received, if that request
    is a receive that succeeded.  In a run of [ocl_probe], request 9 is the
    receive of the sector count and request 11 the one of the buffer
    word. *)
Definition reported (tr : list event) (i : nat) : option Z :=
  match tr !! i with
  | Some (EvReceive _ rc word) => if rc =? ERROR_OK then Some word else None
  | _ => None
  end.

End Driver.

(** The words sent in a run, in order. *)
Definition sends (tr : list event) : list (list Z) :=
  omap (λ e, match e with EvSend ws _ => Some ws | _ => None end) tr.

(** A value of type [uint32_t]. *)
Definition u32 (z : Z) : Prop := 0 ≤ z < 2 ^ 32.

(** A concrete environment for the examples: the values that the headers
    of the surrounding project give to the constants, zero for fresh
    memory. *)
Definition sample_env : ocl_env := {|
  OCL_FLASH_BLOCK := 0x0CFB0000;
  OCL_ERASE_BLOCK := 0x0CEB0000;
  OCL_ERASE_ALL := 0x0CEA0000;
  OCL_PROBE := 0x0CBE0000;
  OCL_CMD_DONE := 0x0ACD0000;
  OCL_CHKS_INIT := 0xC100CD0C;
  ERROR_OK := 0;
  ERROR_FLASH_BANK_INVALID := -900;
  ERROR_FLASH_BANK_NOT_PROBED := -907;
  ERROR_FLASH_OPERATION_FAILED := -902;
  ERROR_TARGET_NOT_RUNNING := -310;
  ERROR_TARGET_TIMEOUT := -301;
  TARGET_RUNNING := 1;
  EICE_COMM_CTRL_WBIT := 1;
  uninit_word := 0;
  uninit_sector := {| sector_offset := 0; sector_size := 0;
                      is_erased := 0; is_protected := 0 |};
  ERROR_OK_zero := eq_refl;
  ERROR_FLASH_BANK_INVALID_nonzero := ltac:(discriminate);
  ERROR_FLASH_OPERATION_FAILED_nonzero := ltac:(discriminate)
|}.

(** A bank as [ocl_flash_bank_command] leaves it, with a running target. *)
Definition fresh_bank : flash_bank := {|
  base := 0; size := 0; num_sectors := 0; sectors := [];
  target_state := 1;
  driver_priv := {| buflen := 0; bufalign := 1 |}
|}.

(** * The FreeBSD GPIO bit-bang driver *)

(** The driver keeps its state in variables with static storage duration
    and acts on the outside world through calls of libgpio and of the
    bit-bang layer.  The variables are a store indexed by their names; a
    driver function is a function from the store to its result, the new
    store and the calls it made, in order. *)

Module Gpio.

(** The variables of the driver: the file-scope statics, the statics
    local to [freebsdgpio_write], and two variables of the bit-bang layer:
    [swd_mode], which the driver reads, and the pointer
    [bitbang_interface], which [freebsdgpio_init] assigns.  [bool]
    variables hold 0 or 1, the pointer holds an address. *)
Inductive global :=
  | gpiobus
  | tck_gpio | tms_gpio | tdi_gpio | tdo_gpio
  | trst_gpio | srst_gpio | swclk_gpio | swdio_gpio
  | tck_handle | tms_handle | tdi_handle | tdo_handle
  | trst_handle | srst_handle | swclk_handle | swdio_handle
  | last_swclk | last_swdio | last_stored | swdio_input
  | last_tck | last_tms | last_tdi | first_time
  | swd_mode
  | bitbang_interface.

#[export] Instance global_eq_dec : EqDecision global.
Proof. solve_decision. Defined.

Abbreviation globals := (global → Z).

(** The store at program start: bus 0, no pin and no handle configured,
    every other static zero and [bitbang_interface] null; [mode] is the
    value of [swd_mode]. *)
Definition initial (mode : Z) : globals :=
  λ g, match g with
       | gpiobus => 0
       | tck_gpio | tms_gpio | tdi_gpio | tdo_gpio
       | trst_gpio | srst_gpio | swclk_gpio | swdio_gpio => -1
       | tck_handle | tms_handle | tdi_handle | tdo_handle
       | trst_handle | srst_handle | swclk_handle | swdio_handle => -1
       | swd_mode => mode
       | _ => 0
       end.

(** The calls that leave the driver, with the arguments as the source
    passes them. *)
Inductive call :=
  | gpio_open (unit_number : Z)
  | gpio_pin_output (handle pin : Z)
  | gpio_pin_input (handle pin : Z)
  | gpio_pin_high (handle pin : Z)
  | gpio_pin_low (handle pin : Z)
  | gpio_pin_get (handle pin : Z)
  | bitbang_swd_switch_seq (seq : Z).

Definition io (A : Type) : Type := globals → A * globals * list call.

#[export] Instance io_ret : MRet io := λ A a s, (a, s, []).
#[export] Instance io_bind : MBind io :=
  λ A B f m s,
    let '(a, s1, l1) := m s in
    let '(b, s2, l2) := f a s1 in
    (b, s2, l1 ++ l2).

Definition get (g : global) : io Z := λ s, (s g, s, []).
Definition put (g : global) (v : Z) : io unit := λ s, (tt, <[g:=v]> s, []).
Definition emit (c : call) : io unit := λ s, (tt, s, [c]).

(** The result, the final store and the calls of a run. *)
Definition result {A} (r : A * globals * list call) : A := r.1.1.
Definition final {A} (r : A * globals * list call) : globals := r.1.2.
Definition calls {A} (r : A * globals * list call) : list call := r.2.

(** [!x] *)
Definition c_not (x : Z) : Z := if x =? 0 then 1 else 0.

(** Constants of the headers that are not among the sources, and the
    address [&freebsdgpio_bitbang] of the driver's table of bit-bang
    operations. *)
Class gpio_env := {
  ERROR_OK : Z;
  ERROR_JTAG_INIT_FAILED : Z;
  JTAG_TO_SWD : Z;
  SWD_TO_JTAG : Z;
  GPIO_PIN_LOW : Z;
  GPIO_PIN_HIGH : Z;
  BB_LOW : Z;
  BB_HIGH : Z;
  freebsdgpio_bitbang : Z
}.

Section Driver.
Context `{gpio_env}.

(** Helper func to determine if gpio number valid *)
Definition is_gpio_valid (gpio : Z) : bool := (gpio >=? 0) && (gpio <? 10000).

(** Configure gpio *)
Definition setup_gpio (handle gpio is_output init_high : Z) : io Z :=
  let ret := -1 in
  (if negb (is_output =? 0) then
     emit (gpio_pin_output handle gpio);;
     if negb (init_high =? 0) then emit (gpio_pin_high handle gpio)
     else mret tt
   else emit (gpio_pin_input handle gpio));;
  mret ret.

Definition freebsdgpio_swdio_drive (is_output : bool) : io unit :=
  h ← get swdio_handle;
  g ← get swdio_gpio;
  (if is_output then
     emit (gpio_pin_input h g);;
     emit (gpio_pin_high h g)
   else emit (gpio_pin_input h g));;
  put last_stored 0;;
  put swdio_input (Z.b2z (negb is_output)).

(** [value] is the result of [gpio_pin_get]. *)
Definition freebsdgpio_swdio_read (value : Z) : io Z :=
  h ← get swdio_handle;
  g ← get swdio_gpio;
  emit (gpio_pin_get h g);;
  mret (c_ne value GPIO_PIN_LOW).

Definition freebsdgpio_swdio_write (swclk swdio : Z) : io unit :=
  input ← get swdio_input;
  stored ← get last_stored;
  (if input =? 0 then
     last ← get last_swdio;
     if (stored =? 0) || negb (swdio =? last) then
       h ← get swdio_handle;
       if negb (swdio =? 0) then emit (gpio_pin_high h swdio)
       else emit (gpio_pin_low h swdio)
     else mret tt
   else mret tt);;
  (* write swclk last *)
  last ← get last_swclk;
  (if (stored =? 0) || negb (swclk =? last) then
     h ← get swclk_handle;
     if negb (swclk =? 0) then emit (gpio_pin_high h swclk)
     else emit (gpio_pin_low h swclk)
   else mret tt);;
  put last_swdio swdio;;
  put last_swclk swclk;;
  put last_stored 1.

(** Bitbang interface read of TDO; [value] is the result of
    [gpio_pin_get]. *)
Definition freebsdgpio_read (value : Z) : io Z :=
  h ← get tdo_handle;
  g ← get tdo_gpio;
  emit (gpio_pin_get h g);;
  mret (if value =? GPIO_PIN_HIGH then BB_HIGH else BB_LOW).

(** Bitbang interface write of TCK, TMS, TDI *)
Definition freebsdgpio_write (tck tms tdi : Z) : io Z :=
  mode ← get swd_mode;
  if negb (mode =? 0) then
    freebsdgpio_swdio_write tck tdi;;
    mret ERROR_OK
  else
  first ← get first_time;
  (if first =? 0 then
     put last_tck (c_not tck);;
     put last_tms (c_not tms);;
     put last_tdi (c_not tdi);;
     put first_time 1
   else mret tt);;
  last ← get last_tdi;
  (if negb (tdi =? last) then
     h ← get tdi_handle;
     if negb (tdi =? 0) then emit (gpio_pin_high h tdi)
     else emit (gpio_pin_low h tdi)
   else mret tt);;
  last ← get last_tms;
  (if negb (tms =? last) then
     h ← get tms_handle;
     if negb (tms =? 0) then emit (gpio_pin_high h tms)
     else emit (gpio_pin_low h tms)
   else mret tt);;
  (* write clk last *)
  last ← get last_tck;
  (if negb (tck =? last) then
     h ← get tck_handle;
     if negb (tck =? 0) then emit (gpio_pin_high h tck)
     else emit (gpio_pin_low h tck)
   else mret tt);;
  put last_tdi tdi;;
  put last_tms tms;;
  put last_tck tck;;
  mret ERROR_OK.

(** Bitbang interface to manipulate reset lines SRST and TRST *)
Definition freebsdgpio_reset (trst srst : Z) : io Z :=
  (* assume active low *)
  h ← get srst_handle;
  (if h >=? 0 then
     if negb (srst =? 0) then emit (gpio_pin_low h trst)
     else emit (gpio_pin_high h trst)
   else mret tt);;
  (* assume active low *)
  h ← get trst_handle;
  (if h >=? 0 then
     h ← get srst_handle;
     if negb (trst =? 0) then emit (gpio_pin_low h trst)
     else emit (gpio_pin_high h trst)
   else mret tt);;
  mret ERROR_OK.

Definition freebsdgpio_jtag_mode_possible (s : globals) : bool :=
  if negb (is_gpio_valid (s tck_gpio)) then false else
  if negb (is_gpio_valid (s tms_gpio)) then false else
  if negb (is_gpio_valid (s tdi_gpio)) then false else
  if negb (is_gpio_valid (s tdo_gpio)) then false else
  true.

Definition freebsdgpio_swd_mode_possible (s : globals) : bool :=
  if negb (is_gpio_valid (s swclk_gpio)) then false else
  if negb (is_gpio_valid (s swdio_gpio)) then false else
  true.

(** One of the eight blocks of [freebsdgpio_init] that configure a pin:
    [if (x_gpio >= 0) { x_handle = setup_gpio(x_handle, x_gpio, ...);
    if (x_handle < 0) goto out_error; }].  The result tells whether the
    block jumps to [out_error]. *)
Definition configure (x_handle x_gpio : global) (is_output init_high : Z)
    : io bool :=
  gpio ← get x_gpio;
  if gpio >=? 0 then
    h ← get x_handle;
    h ← setup_gpio h gpio is_output init_high;
    put x_handle h;;
    h ← get x_handle;
    mret (h <? 0)
  else mret false.

(** [gpioc] is the result of [gpio_open(0)]. *)
Definition freebsdgpio_init (gpioc : Z) : io Z :=
  put bitbang_interface freebsdgpio_bitbang;;
  ((λ s,
  if negb (freebsdgpio_jtag_mode_possible s
           || freebsdgpio_swd_mode_possible s)
  then (ERROR_JTAG_INIT_FAILED, s, []) else
  (emit (gpio_open 0);;
   put tck_handle gpioc;;
   put tms_handle gpioc;;
   put tdi_handle gpioc;;
   put tdo_handle gpioc;;
   put trst_handle gpioc;;
   put srst_handle gpioc;;
   put swclk_handle gpioc;;
   put swdio_handle gpioc;;
   out_error ← configure tck_handle tck_gpio 1 0;
   if out_error : bool then mret ERROR_JTAG_INIT_FAILED else
   out_error ← configure tms_handle tms_gpio 1 1;
   if out_error : bool then mret ERROR_JTAG_INIT_FAILED else
   out_error ← configure tdi_handle tdi_gpio 1 0;
   if out_error : bool then mret ERROR_JTAG_INIT_FAILED else
   out_error ← configure tdo_handle tdo_gpio 0 0;
   if out_error : bool then mret ERROR_JTAG_INIT_FAILED else
   (* assume active low *)
   out_error ← configure trst_handle trst_gpio 1 1;
   if out_error : bool then mret ERROR_JTAG_INIT_FAILED else
   (* assume active low *)
   out_error ← configure srst_handle srst_gpio 1 1;
   if out_error : bool then mret ERROR_JTAG_INIT_FAILED else
   out_error ← configure swclk_handle swclk_gpio 1 0;
   if out_error : bool then mret ERROR_JTAG_INIT_FAILED else
   out_error ← configure swdio_handle swdio_gpio 1 0;
   if out_error : bool then mret ERROR_JTAG_INIT_FAILED else
   possible ← (λ s, (freebsdgpio_swd_mode_possible s, s, []));
   (if possible : bool then
      mode ← get swd_mode;
      if negb (mode =? 0) then emit (bitbang_swd_switch_seq JTAG_TO_SWD)
      else emit (bitbang_swd_switch_seq SWD_TO_JTAG)
    else mret tt);;
   mret ERROR_OK) s) : io Z).

Definition freebsdgpio_quit : io Z := mret ERROR_OK.

(** ** Reading the calls *)

(** The call that puts a line at the level [v], as the driver issues it:
    the level is passed where libgpio takes the pin. *)
Definition drives (handle v : Z) : call :=
  if negb (v =? 0) then gpio_pin_high handle v else gpio_pin_low handle v.

(** The pins in the order in which [freebsdgpio_init] configures them:
    handle, pin number, direction and initial level. *)
Definition pin_setup : list (global * global * Z * Z) :=
  [(tck_handle, tck_gpio, 1, 0); (tms_handle, tms_gpio, 1, 1);
   (tdi_handle, tdi_gpio, 1, 0); (tdo_handle, tdo_gpio, 0, 0);
   (trst_handle, trst_gpio, 1, 1); (srst_handle, srst_gpio, 1, 1);
   (swclk_handle, swclk_gpio, 1, 0); (swdio_handle, swdio_gpio, 1, 0)].

Definition handles : list global := (λ p, p.1.1.1) <$> pin_setup.

(** The store after [freebsdgpio_init] has assigned the result of
    [gpio_open] to every handle. *)
Definition opened (gpioc : Z) (s : globals) : globals :=
  foldl (λ s h, <[h:=gpioc]> s) s handles.

(** The first pin that [freebsdgpio_init] finds configured. *)
Definition first_configured (s : globals)
    : option (global * global * Z * Z) :=
  List.find (λ p, s p.1.1.2 >=? 0) pin_setup.

End Driver.

(** A concrete environment for the examples. *)
Definition sample_env : gpio_env :=
  {| ERROR_OK := 0; ERROR_JTAG_INIT_FAILED := -100;
     JTAG_TO_SWD := 1; SWD_TO_JTAG := 2;
     GPIO_PIN_LOW := 0; GPIO_PIN_HIGH := 1;
     BB_LOW := 0; BB_HIGH := 1;
     freebsdgpio_bitbang := 0x1000 |}.

End Gpio.

(** * Properties *)

(** ** Fixed-width integers *)

Lemma u8_range (b : byte) : 0 ≤ u8 b < 256.
Proof. unfold u8. pose proof (Byte.to_N_bounded b). lia. Qed.


Lemma to_u32_small (z : Z) : u32 z → to_u32 z = z.
Proof. unfold u32, to_u32. intros. by apply Z.mod_small. Qed.

Lemma to_u32_range (z : Z) : u32 (to_u32 z).
Proof. unfold u32, to_u32. apply Z.mod_pos_bound. lia. Qed.

Lemma to_int_small (z : Z) : - 2 ^ 31 ≤ z < 2 ^ 31 → to_int z = z.
Proof. unfold to_int. intros. rewrite Z.mod_small; lia. Qed.

Lemma to_int_le (z : Z) : u32 z → to_int z ≤ z.
Proof. unfold u32, to_int. intros. Z.div_mod_to_equations. lia. Qed.

Lemma to_int_neg (z : Z) : 2 ^ 31 ≤ z < 2 ^ 32 → to_int z < 0.
Proof. unfold to_int. intros. Z.div_mod_to_equations. lia. Qed.


Lemma c_ne_0 (a b : Z) : c_ne a b = 0 ↔ a = b.
Proof. unfold c_ne. destruct (Z.eqb_spec a b); split; (done || lia). Qed.

Lemma c_ne_same (a : Z) : c_ne a a = 0.
Proof. by apply c_ne_0. Qed.

(** ** Byte lanes of a word *)

Lemma mask_lane0 : 0xffffff00 = Z.shiftl (Z.ones 24) 8.
Proof. reflexivity. Qed.

Lemma mask_lane1 : 0xffff00ff = Z.lor (Z.ones 8) (Z.shiftl (Z.ones 16) 16).
Proof. reflexivity. Qed.

Lemma mask_lane2 : 0xff00ffff = Z.lor (Z.ones 16) (Z.shiftl (Z.ones 8) 24).
Proof. reflexivity. Qed.

Lemma mask_lane3 : 0x00ffffff = Z.ones 24.
Proof. reflexivity. Qed.

Lemma u8_mod (b : byte) : u8 b = u8 b mod 2 ^ 8.
Proof. symmetry. apply Z.mod_small. pose proof (u8_range b). lia. Qed.

(** The operand of the last case of the switch, without the detour through
    [int]. *)
Lemma lane3_operand (b : byte) :
  to_u32 (Z.lor (to_int (Z.shiftl (u8 b) 24)) 0x00ffffff)
  = Z.lor (Z.shiftl (u8 b) 24) 0x00ffffff.
Proof. destruct b; reflexivity. Qed.

Ltac lane_blast :=
  unfold byte_lane;
  rewrite ?mask_lane0, ?mask_lane1, ?mask_lane2, ?mask_lane3;
  change 0xff with (Z.ones 8);
  change (8 * 0) with 0; change (8 * 1) with 8;
  change (8 * 2) with 16; change (8 * 3) with 24;
  try change (Z.shiftl ?x 0) with x;
  Z.bitblast.

Lemma lanes_eq (a b c d a' b' c' d' : Z) :
  a = a' → b = b' → c = c' → d = d' → [a; b; c; d] = [a'; b'; c'; d'].
Proof. congruence. Qed.

Lemma lanes_merge0 (w : Z) (b : byte) :
  lanes (Z.land w (Z.lor (u8 b) 0xffffff00))
  = [Z.land (byte_lane w 0) (u8 b); byte_lane w 1; byte_lane w 2;
     byte_lane w 3].
Proof.
  rewrite (u8_mod b). generalize (u8 b). intros v.
  unfold lanes. apply lanes_eq; lane_blast.
Qed.

Lemma lanes_merge1 (w : Z) (b : byte) :
  lanes (Z.land w (Z.lor (Z.shiftl (u8 b) 8) 0xffff00ff))
  = [byte_lane w 0; Z.land (byte_lane w 1) (u8 b); byte_lane w 2;
     byte_lane w 3].
Proof.
  rewrite (u8_mod b). generalize (u8 b). intros v.
  unfold lanes. apply lanes_eq; lane_blast.
Qed.

Lemma lanes_merge2 (w : Z) (b : byte) :
  lanes (Z.land w (Z.lor (Z.shiftl (u8 b) 16) 0xff00ffff))
  = [byte_lane w 0; byte_lane w 1; Z.land (byte_lane w 2) (u8 b);
     byte_lane w 3].
Proof.
  rewrite (u8_mod b). generalize (u8 b). intros v.
  unfold lanes. apply lanes_eq; lane_blast.
Qed.

Lemma lanes_merge3 (w : Z) (b : byte) :
  lanes (Z.land w (Z.lor (Z.shiftl (u8 b) 24) 0x00ffffff))
  = [byte_lane w 0; byte_lane w 1; byte_lane w 2;
     Z.land (byte_lane w 3) (u8 b)].
Proof.
  rewrite (u8_mod b). generalize (u8 b). intros v.
  unfold lanes. apply lanes_eq; lane_blast.
Qed.

Lemma land_filler (b : byte) : Z.land 255 (u8 b) = u8 b.
Proof.
  rewrite Z.land_comm. change 255 with (Z.ones 8).
  rewrite Z.land_ones by lia. symmetry. apply u8_mod.
Qed.

Lemma lanes_filler : lanes 0xffffffff = replicate 4 255.
Proof. reflexivity. Qed.

(** ** The copy loop and the block of one chunk *)

Section PackerProps.
Context `{ocl_env}.

Lemma load_Some (buf : list Z) (p : nat) (v : Z) :
  buf !! p = Some v → load buf p = Ok v.
Proof. unfold load. by intros ->. Qed.

Lemma store_lt (buf : list Z) (p : nat) (v : Z) :
  (p < length buf)%nat → store buf p v = Ok (<[p:=v]> buf).
Proof. unfold store. intros. by rewrite decide_True. Qed.

Lemma merge_byte_Ok (st : packer) (lane : Z → Z) b rest cur :
  buffer st = b :: rest →
  dcc_buffer st !! dcc_bufptr st = Some cur →
  merge_byte st lane
  = Ok (<[dcc_bufptr st := Z.land cur (lane (u8 b))]> (dcc_buffer st), rest).
Proof.
  intros Hb Hcur. unfold merge_byte. rewrite Hb. cbn.
  rewrite (load_Some _ _ _ Hcur). cbn.
  rewrite store_lt by eauto using lookup_lt_Some. done.
Qed.

Lemma pack_byte_low (st : packer) b rest cur (P : list Z) :
  buffer st = b :: rest →
  dcc_buffer st !! dcc_bufptr st = Some cur →
  lanes cur = P ++ replicate (4 - length P) 255 →
  byteofs st = Z.of_nat (length P) →
  (length P < 3)%nat →
  ∃ cur',
    pack_byte st
    = Ok {| dcc_buffer := <[dcc_bufptr st := cur']> (dcc_buffer st);
            dcc_bufptr := dcc_bufptr st; buffer := rest;
            byteofs := byteofs st + 1; chksum := chksum st |}
    ∧ lanes cur' = (P ++ [u8 b]) ++ replicate (3 - length P) 255.
Proof.
  intros Hb Hcur Hl Hk HP. unfold pack_byte.
  destruct P as [|p0 [|p1 [|p2 P]]]; cbn in HP; try lia;
    cbn [length] in Hk;
    match type of Hk with
    | _ = Z.of_nat ?n =>
        let v := eval cbv in (Z.of_nat n) in change (Z.of_nat n) with v in *
    end;
    rewrite Hk; lazy iota beta;
    rewrite (merge_byte_Ok _ _ _ _ _ Hb Hcur); cbn;
    eexists; (split; [reflexivity|]);
    cbn in Hl; injection Hl as H0 H1 H2 H3.
  - rewrite lanes_merge0, H0, H1, H2, H3, land_filler. done.
  - rewrite lanes_merge1, H0, H1, H2, H3, land_filler. done.
  - rewrite lanes_merge2, H0, H1, H2, H3, land_filler. done.
Qed.

Lemma pack_byte_high (st : packer) b rest cur (P : list Z) :
  buffer st = b :: rest →
  dcc_buffer st !! dcc_bufptr st = Some cur →
  lanes cur = P ++ replicate (4 - length P) 255 →
  byteofs st = Z.of_nat (length P) →
  length P = 3%nat →
  (S (dcc_bufptr st) < length (dcc_buffer st))%nat →
  ∃ cur',
    pack_byte st
    = Ok {| dcc_buffer :=
              <[S (dcc_bufptr st) := 0xffffffff]>
                (<[dcc_bufptr st := cur']> (dcc_buffer st));
            dcc_bufptr := S (dcc_bufptr st); buffer := rest;
            byteofs := 0; chksum := Z.lxor (chksum st) cur' |}
    ∧ lanes cur' = P ++ [u8 b].
Proof.
  intros Hb Hcur Hl Hk HP Hcap. unfold pack_byte.
  destruct P as [|p0 [|p1 [|p2 [|p3 P]]]]; try discriminate HP.
  change (Z.of_nat (length [p0; p1; p2])) with 3 in Hk.
  rewrite Hk; lazy iota beta.
  rewrite (merge_byte_Ok _ _ _ _ _ Hb Hcur). cbn.
  rewrite (load_Some _ _ (Z.land cur (Z.lor (Z.shiftl (u8 b) 24) 0x00ffffff))).
  2:{ rewrite lane3_operand. apply list_lookup_insert_eq. lia. }
  cbn. rewrite store_lt by (rewrite length_insert; lia).
  eexists; split; [rewrite lane3_operand; reflexivity|].
  cbn in Hl; injection Hl as H0 H1 H2 H3.
  rewrite lanes_merge3, H0, H1, H2, H3, land_filler. done.
Qed.

Lemma unpack_all_cons (w : Z) (ws : list Z) :
  unpack_all (w :: ws) = lanes w ++ unpack_all ws.
Proof. reflexivity. Qed.

Lemma drop_take_same {A} (l : list A) (n : nat) : drop n (take n l) = [].
Proof. apply drop_ge. rewrite length_take. lia. Qed.

Lemma pack_bytes_spec (B : list byte) :
  ∀ (st : packer) (rest : list byte) (cur : Z) (P : list Z),
  buffer st = B ++ rest →
  dcc_buffer st !! dcc_bufptr st = Some cur →
  lanes cur = P ++ replicate (4 - length P) 255 →
  byteofs st = Z.of_nat (length P) →
  (length P ≤ 3)%nat →
  (length P + length B < 4 * (length (dcc_buffer st) - dcc_bufptr st))%nat →
  ∃ st' cur',
    pack_bytes (length B) st = Ok st' ∧
    buffer st' = rest ∧
    length (dcc_buffer st') = length (dcc_buffer st) ∧
    take (dcc_bufptr st) (dcc_buffer st')
      = take (dcc_bufptr st) (dcc_buffer st) ∧
    0 ≤ byteofs st' ≤ 3 ∧
    4 * Z.of_nat (dcc_bufptr st') + byteofs st'
      = 4 * Z.of_nat (dcc_bufptr st) + Z.of_nat (length P + length B) ∧
    dcc_buffer st' !! dcc_bufptr st' = Some cur' ∧
    let done := drop (dcc_bufptr st) (take (dcc_bufptr st') (dcc_buffer st')) in
    chksum st' = foldl Z.lxor (chksum st) done ∧
    unpack_all done ++ lanes cur'
      = P ++ map u8 B ++ replicate (4 - Z.to_nat (byteofs st')) 255.
Proof.
  induction B as [|b B IH]; intros st rest cur P Hb Hcur Hl Hk HP Hcap.
  - exists st, cur. cbn [length pack_bytes map].
    rewrite drop_take_same, Hk, Nat2Z.id, Nat.add_0_r.
    repeat split; try done; lia.
  - cbn [length pack_bytes]. cbn [length] in Hcap.
    destruct (decide (length P < 3)%nat) as [Hlow|Hhigh].
    + destruct (pack_byte_low st b (B ++ rest) cur P)
        as (cur1 & Hstep & Hl1); [done..|].
      rewrite Hstep. cbn.
      match type of Hstep with _ = Ok ?s => set (st1 := s) in * end.
      destruct (IH st1 rest cur1 (P ++ [u8 b]))
        as (st' & cur' & Hrun & Hrest & Hlen & Hpre & Hk' & Hpos & Hcur'
            & Hsum & Hun); subst st1;
        cbn [dcc_buffer dcc_bufptr buffer byteofs chksum].
      * reflexivity.
      * apply list_lookup_insert_eq. eauto using lookup_lt_Some.
      * rewrite Hl1, length_app. cbn [length]. do 2 f_equal. lia.
      * rewrite Hk, length_app. cbn [length]. lia.
      * rewrite length_app. cbn [length]. lia.
      * rewrite length_app, length_insert. cbn [length]. lia.
      * cbn [dcc_buffer dcc_bufptr buffer byteofs chksum] in *.
        exists st', cur'. rewrite Hrun.
        rewrite length_insert in Hlen. rewrite take_insert_ge in Hpre by lia.
        rewrite length_app in Hpos. cbn [length] in Hpos.
        rewrite <- (assoc_L (++)) in Hun.
        repeat split; try done; lia.
    + assert (length P = 3%nat) as HP3 by lia.
      pose proof (lookup_lt_Some _ _ _ Hcur) as Hlt.
      destruct (pack_byte_high st b (B ++ rest) cur P)
        as (cur1 & Hstep & Hl1); [done..| cbn [length] in Hcap; lia |].
      rewrite Hstep. cbn.
      match type of Hstep with _ = Ok ?s => set (st1 := s) in * end.
      destruct (IH st1 rest 0xffffffff [])
        as (st' & cur' & Hrun & Hrest & Hlen & Hpre & Hk' & Hpos & Hcur'
            & Hsum & Hun); subst st1;
        cbn [dcc_buffer dcc_bufptr buffer byteofs chksum].
      * reflexivity.
      * apply list_lookup_insert_eq. rewrite length_insert.
        cbn [length] in Hcap. lia.
      * apply lanes_filler.
      * reflexivity.
      * cbn. lia.
      * rewrite !length_insert. cbn [length] in *. lia.
      * cbn [dcc_buffer dcc_bufptr buffer byteofs chksum length] in *.
        exists st', cur'. rewrite Hrun.
        rewrite !length_insert in Hlen.
        assert (dcc_buffer st' !! dcc_bufptr st = Some cur1) as Hat.
        { rewrite <- (lookup_take_lt _ (S (dcc_bufptr st))) by lia.
          rewrite Hpre, lookup_take_lt by lia.
          rewrite list_lookup_insert_ne by lia.
          apply list_lookup_insert_eq. lia. }
        assert (dcc_bufptr st < dcc_bufptr st')%nat as Hadv by lia.
        rewrite (drop_S _ cur1 (dcc_bufptr st))
          by (rewrite lookup_take_lt by lia; done).
        repeat split; try done; try lia.
        -- rewrite <- (Nat.min_l (dcc_bufptr st) (S (dcc_bufptr st))) by lia.
           rewrite <- !take_take, Hpre.
           rewrite !take_take, Nat.min_l by lia.
           rewrite !take_insert_ge by lia. done.
        -- rewrite unpack_all_cons, <- (assoc_L (++)), Hun, Hl1.
           rewrite <- (assoc_L (++)). done.
Qed.

Lemma unpack_all_snoc (ws : list Z) (w : Z) :
  unpack_all (ws ++ [w]) = unpack_all ws ++ lanes w.
Proof.
  unfold unpack_all. rewrite bind_app. done.
Qed.

Lemma fill_block_spec (ocl : ocl_priv) (staging : list Z) (B rest : list byte)
    (offset runlen : Z) :
  Z.to_nat runlen = length B →
  (offset mod bufalign ocl) mod 4 + Z.of_nat (length B)
    ≤ 4 * (Z.of_nat (length staging) - 3) →
  ∃ st ws,
    fill_block ocl staging (B ++ rest) offset runlen = Ok st
    ∧ block st
      = [to_u32 (Z.lor OCL_FLASH_BLOCK runlen); offset] ++ ws
        ++ [xor_checksum ws]
    ∧ buffer st = rest
    ∧ length (dcc_buffer st) = length staging
    ∧ unpack_all ws
      = replicate (Z.to_nat ((offset mod bufalign ocl) mod 4)) 255
        ++ map u8 B
        ++ replicate
             (Z.to_nat ((4 - ((offset mod bufalign ocl) mod 4
                              + Z.of_nat (length B)) mod 4) mod 4)) 255.
Proof.
  intros Hrun Hcap.
  pose proof (Z.mod_pos_bound (offset mod bufalign ocl) 4 eq_refl) as Ho.
  set (o := (offset mod bufalign ocl) mod 4) in *.
  destruct staging as [|s0 [|s1 [|s2 staging]]]; cbn [length] in Hcap; try lia.
  unfold fill_block.
  rewrite store_lt by (cbn [length]; lia). cbn.
  rewrite store_lt by (cbn [length]; lia). cbn.
  rewrite store_lt by (cbn [length]; lia). cbn.
  rewrite Hrun. fold o.
  set (hdr := to_u32 (Z.lor OCL_FLASH_BLOCK runlen)).
  match goal with |- context [pack_bytes _ ?s] => set (st0 := s) end.
  destruct (pack_bytes_spec B st0 rest 0xffffffff (replicate (Z.to_nat o) 255))
    as (st' & cur' & Hpk & Hrest & Hlen & Hpre & Hk' & Hpos & Hcur' & Hsum
        & Hun); subst st0;
    cbn [dcc_buffer dcc_bufptr buffer byteofs chksum length] in *.
  - reflexivity.
  - reflexivity.
  - rewrite length_replicate, lanes_filler, <- replicate_add.
    f_equal. lia.
  - rewrite length_replicate. lia.
  - rewrite length_replicate. lia.
  - rewrite length_replicate. lia.
  - rewrite Hpk. cbn.
    rewrite length_replicate in Hpos.
    pose proof (lookup_lt_Some _ _ _ Hcur') as Hlt.
    assert (2 ≤ dcc_bufptr st')%nat as Hge by lia.
    set (done := drop 2 (take (dcc_bufptr st') (dcc_buffer st'))) in *.
    assert (take (dcc_bufptr st') (dcc_buffer st') = [hdr; offset] ++ done)
      as Htake.
    { rewrite <- (take_drop 2 (take (dcc_bufptr st') (dcc_buffer st'))).
      fold done. f_equal.
      rewrite take_take, Nat.min_l by lia. by rewrite Hpre. }
    assert ((o + Z.of_nat (length B)) mod 4 = byteofs st') as Hmod.
    { Z.div_mod_to_equations. lia. }
    rewrite Hmod.
    destruct (Z.eqb_spec (byteofs st') 0) as [Hz|Hnz]; cbn.
    + rewrite store_lt by lia. cbn.
      eexists. exists done. split; [reflexivity|].
      unfold block. cbn [dcc_buffer dcc_bufptr buffer].
      rewrite Hz in Hun. cbn [Z.to_nat Nat.sub] in Hun.
      rewrite (assoc_L (++) _ (map u8 B)) in Hun.
      apply app_inj_2 in Hun as [Hun _]; [|done].
      rewrite length_insert.
      repeat split; try done.
      * erewrite take_S_r by (apply list_lookup_insert_eq; lia).
        rewrite take_insert_ge by lia.
        rewrite Htake, <- (assoc_L (++)). unfold xor_checksum.
        by rewrite Hsum.
      * rewrite Hun, Hz. change (Z.to_nat ((4 - 0) mod 4)) with 0%nat.
        cbn [replicate]. by rewrite (right_id_L [] (++)).
    + rewrite (load_Some _ _ _ Hcur'). cbn.
      assert (S (dcc_bufptr st') < length (dcc_buffer st'))%nat as Hlt' by lia.
      rewrite store_lt by lia. cbn.
      eexists. exists (done ++ [cur']). split; [reflexivity|].
      unfold block. cbn [dcc_buffer dcc_bufptr buffer].
      rewrite length_insert.
      repeat split; try done.
      * erewrite take_S_r by (apply list_lookup_insert_eq; lia).
        rewrite take_insert_ge by lia.
        erewrite take_S_r by done.
        rewrite Htake, <- !(assoc_L (++)). unfold xor_checksum.
        rewrite foldl_app. cbn. by rewrite Hsum.
      * rewrite unpack_all_snoc, Hun. do 3 f_equal.
        rewrite Z.mod_small by lia. lia.
Qed.
End PackerProps.

(** ** Reading a block back *)

Lemma length_lanes (w : Z) : length (lanes w) = 4%nat.
Proof. reflexivity. Qed.

Lemma length_unpack_all (ws : list Z) :
  length (unpack_all ws) = (4 * length ws)%nat.
Proof.
  induction ws as [|w ws IH]; [done|].
  rewrite unpack_all_cons, length_app, IH, length_lanes. cbn [length]. lia.
Qed.

Lemma unpack_all_lookup (ws : list Z) (q r : nat) (w : Z) :
  ws !! q = Some w → (r < 4)%nat →
  unpack_all ws !! (4 * q + r)%nat = Some (byte_lane w (Z.of_nat r)).
Proof.
  revert q. induction ws as [|a ws IH]; intros q Hq Hr; [done|].
  rewrite unpack_all_cons. destruct q as [|q].
  - injection Hq as ->. rewrite lookup_app_l by (cbn; lia).
    destruct r as [|[|[|[|r]]]]; try lia; reflexivity.
  - rewrite lookup_app_r by (cbn; lia).
    replace (4 * S q + r - length (lanes a))%nat with (4 * q + r)%nat
      by (cbn [length lanes]; lia).
    by apply IH.
Qed.

Lemma unpack_all_lookup_inv (ws : list Z) (j : nat) (v : Z) :
  unpack_all ws !! j = Some v →
  ∃ w, ws !! (j / 4)%nat = Some w
       ∧ v = byte_lane w (Z.of_nat (j mod 4)).
Proof.
  intros Hj. pose proof (lookup_lt_Some _ _ _ Hj) as Hlt.
  rewrite length_unpack_all in Hlt.
  destruct (lookup_lt_is_Some_2 ws (j / 4)) as [w Hw].
  { apply Nat.Div0.div_lt_upper_bound. lia. }
  exists w. split; [done|].
  pose proof (unpack_all_lookup ws (j / 4) (j mod 4) w Hw) as Hat.
  rewrite <- Nat.div_mod_eq in Hat.
  rewrite Hat in Hj by (apply Nat.mod_upper_bound; lia). congruence.
Qed.

Lemma payload_words_block (h0 h1 c : Z) (ws : list Z) :
  payload_words ([h0; h1] ++ ws ++ [c]) = ws.
Proof.
  unfold payload_words. change (drop 2 ([h0; h1] ++ ws ++ [c])) with (ws ++ [c]).
  apply take_app_length'. rewrite !length_app. cbn [length]. lia.
Qed.

Section RoundTrip.
Context `{ocl_env}.

(** C1. Packing round trip: for every chunk of bytes [B] and every write
    offset, the packer (given a staging buffer that is large enough) yields
    words from which [B] is read back exactly; byte [i] of [B] sits in byte
    lane [(o + i) mod 4] of its word, where [o] is the offset within the
    aligned buffer window; and all slots without data, before the first
    byte and after the last one in the final word, hold 0xFF. *)
Theorem packing_round_trip (ocl : ocl_priv) (staging : list Z)
    (B rest : list byte) (offset : Z) :
  let o := offset mod bufalign ocl in
  o mod 4 + Z.of_nat (length B) ≤ 4 * (Z.of_nat (length staging) - 3) →
  ∃ st,
    fill_block ocl staging (B ++ rest) offset (Z.of_nat (length B)) = Ok st
    ∧ let ws := payload_words (block st) in
      unpack o (length B) ws = map u8 B
      ∧ (∀ (i : nat) (b : byte), B !! i = Some b →
           ∃ w, ws !! Z.to_nat ((o mod 4 + Z.of_nat i) / 4) = Some w
                ∧ byte_lane w ((o + Z.of_nat i) mod 4) = u8 b)
      ∧ filler_before o ws = replicate (Z.to_nat (o mod 4)) 255
      ∧ filler_after o (length B) ws
        = replicate
            (Z.to_nat ((4 - (o mod 4 + Z.of_nat (length B)) mod 4) mod 4))
            255.
Proof.
  intros o Hcap.
  destruct (fill_block_spec ocl staging B rest offset (Z.of_nat (length B)))
    as (st & ws & Hfill & Hblk & _ & _ & Hun); [lia|done|].
  fold o in Hun.
  pose proof (Z.mod_pos_bound o 4 eq_refl) as Ho.
  exists st. split; [done|]. rewrite Hblk, payload_words_block. cbv zeta.
  unfold unpack, filler_before, filler_after. rewrite Hun.
  set (pre := replicate (Z.to_nat (o mod 4)) 255).
  set (pad := replicate (Z.to_nat ((4 - _) mod 4)) 255).
  assert (length pre = Z.to_nat (o mod 4)) as Hpre
    by apply length_replicate.
  repeat split.
  - rewrite drop_app_length' by done.
    rewrite take_app_length' by (by rewrite length_map). done.
  - intros i b Hb.
    assert (unpack_all ws !! (Z.to_nat (o mod 4) + i)%nat = Some (u8 b))
      as Hat.
    { rewrite Hun. fold pre pad. rewrite lookup_app_r by lia.
      replace (Z.to_nat (o mod 4) + i - length pre)%nat with i by lia.
      rewrite lookup_app_l
        by (rewrite length_map; eauto using lookup_lt_Some).
      by rewrite list_lookup_fmap, Hb. }
    apply unpack_all_lookup_inv in Hat as (w & Hw & Hv).
    exists w. split.
    + rewrite <- Hw. f_equal.
      rewrite Z2Nat.inj_div, Z2Nat.inj_add, Nat2Z.id by lia. done.
    + rewrite Hv. f_equal.
      rewrite Nat2Z.inj_mod, Nat2Z.inj_add, Z2Nat.id by lia.
      change (Z.of_nat 4) with 4. by rewrite Zplus_mod_idemp_l.
  - by rewrite take_app_length'.
  - rewrite (assoc_L (++)), drop_app_length'; [done|].
    by rewrite length_app, length_map, Hpre.
Qed.

End RoundTrip.

(** ** Runs *)

Lemma exec_Ret_inv {R} (r r' : R) (tr : list event) :
  exec (Ret r) tr r' → tr = [] ∧ r' = r.
Proof. by inversion 1. Qed.

Lemma exec_Send_inv {R} (ws : list Z) (k : Z → dcc R) tr r :
  exec (Send ws k) tr r →
  ∃ rc tr', tr = EvSend ws rc :: tr' ∧ exec (k rc) tr' r.
Proof. inversion 1; subst. eauto. Qed.

Lemma exec_Handshake_inv {R} (h t : Z) (k : Z → dcc R) tr r :
  exec (Handshake h t k) tr r →
  ∃ rc tr', tr = EvHandshake h t rc :: tr' ∧ exec (k rc) tr' r.
Proof. inversion 1; subst. eauto. Qed.

Lemma exec_Receive_inv {R} (n : Z) (k : Z * Z → dcc R) tr r :
  exec (Receive n k) tr r →
  ∃ rc w tr', tr = EvReceive n rc w :: tr' ∧ exec (k (rc, w)) tr' r.
Proof. inversion 1; subst. eauto. Qed.

(** A run is determined by the answers of the channel. *)
Lemma exec_det {R} (p : dcc R) (tr : list event) (r1 r2 : R) :
  exec p tr r1 → exec p tr r2 → r1 = r2.
Proof.
  intros H1. revert r2. induction H1; intros r2 H2.
  - by apply exec_Ret_inv in H2 as [_ ->].
  - apply exec_Send_inv in H2 as (? & ? & [= <- <-] & ?). eauto.
  - apply exec_Handshake_inv in H2 as (? & ? & [= <- <-] & ?). eauto.
  - apply exec_Receive_inv in H2 as (? & ? & ? & [= <- <- <-] & ?). eauto.
Qed.

(** Every driver function has a run, whatever the channel answers. *)
Lemma exec_total {R} (p : dcc R) (rc : Z) (w : Z) :
  ∃ tr r, exec p tr r.
Proof.
  induction p as [r|ws k IH|h t k IH|n k IH].
  - eauto using @exec.
  - destruct (IH rc) as (tr & r & Hx). eauto using @exec.
  - destruct (IH rc) as (tr & r & Hx). eauto using @exec.
  - destruct (IH (rc, w)) as (tr & r & Hx). eauto using @exec.
Qed.

Ltac exec_inv H :=
  first
    [ apply exec_Ret_inv in H as [? ?]
    | let rc := fresh "rc" in let tr := fresh "tr" in
      apply exec_Send_inv in H as (rc & tr & ? & H)
    | let rc := fresh "rc" in let tr := fresh "tr" in
      apply exec_Handshake_inv in H as (rc & tr & ? & H)
    | let rc := fresh "rc" in let w := fresh "w" in let tr := fresh "tr" in
      apply exec_Receive_inv in H as (rc & w & tr & ? & H) ];
  try cbn in H.

(** ** The length of a chunk *)

Lemma chunk_runlen_safe (ocl : ocl_priv) (offset count : Z) :
  0 < bufalign ocl ≤ buflen ocl → u32 (buflen ocl) → u32 count → count ≠ 0 →
  let r := chunk_runlen ocl offset count in
  Z.max 0 r ≤ count
  ∧ (offset mod bufalign ocl) mod 4 + Z.max 0 r ≤ buflen ocl
  ∧ 1 ≤ to_u32 r ≤ count
  ∧ to_u32 (count - r) = count - to_u32 r
  ∧ to_u32 (count - r) ≤ count - Z.max 0 r.
Proof.
  intros Hal Hbl Hc Hnz.
  pose proof (Z.mod_pos_bound offset (bufalign ocl)) as Hm.
  unfold chunk_runlen, u32, to_u32, to_int in *.
  change (2 ^ 32) with 4294967296 in *. change (2 ^ 31) with 2147483648 in *.
  revert Hm. generalize (offset mod bufalign ocl). intros m Hm.
  rewrite Z.gtb_ltb. destruct (Z.ltb_spec (buflen ocl) ((count + m) mod 4294967296));
    cbv zeta; Z.div_mod_to_equations; lia.
Qed.

Lemma chunk_runlen_exact (ocl : ocl_priv) (offset count : Z) :
  0 < bufalign ocl ≤ buflen ocl → buflen ocl < 2 ^ 31 →
  0 < count → count + offset mod bufalign ocl < 2 ^ 32 →
  let r := chunk_runlen ocl offset count in
  r = Z.min count (buflen ocl - offset mod bufalign ocl) ∧ 0 < r.
Proof.
  intros Hal Hbl Hc Hnw.
  pose proof (Z.mod_pos_bound offset (bufalign ocl)) as Hm.
  unfold chunk_runlen, to_u32, to_int in *.
  change (2 ^ 32) with 4294967296 in *. change (2 ^ 31) with 2147483648 in *.
  revert Hm Hnw. generalize (offset mod bufalign ocl). intros m Hm Hnw.
  rewrite Z.gtb_ltb. destruct (Z.ltb_spec (buflen ocl) ((count + m) mod 4294967296));
    cbv zeta; Z.div_mod_to_equations; lia.
Qed.

(** ** The loop of [ocl_write] *)

Section WriteLoop.
Context `{ocl_env}.

(** The first request of an iteration is the block of the chunk. *)
Lemma write_loop_send (fuel : nat) (ocl : ocl_priv) (staging : list Z)
    (payload : list byte) (offset count : Z) (st : packer) :
  count ≠ 0 →
  fill_block ocl staging payload offset (chunk_runlen ocl offset count)
    = Ok st →
  ∃ k, write_loop (S fuel) ocl staging payload offset count
       = Send (block st) k.
Proof.
  intros Hnz Hfill. cbn [write_loop].
  rewrite (proj2 (Z.eqb_neq _ _) Hnz), Hfill. cbn. eauto.
Qed.

(** An acknowledged chunk, followed by the rest of the loop. *)
Lemma write_loop_acked (fuel : nat) (ocl : ocl_priv) (staging : list Z)
    (payload : list byte) (offset count : Z) (st : packer) tr r :
  count ≠ 0 →
  fill_block ocl staging payload offset (chunk_runlen ocl offset count)
    = Ok st →
  (0 < length (dcc_buffer st))%nat →
  exec (write_loop fuel ocl (<[0%nat:=OCL_CMD_DONE]> (dcc_buffer st))
          (buffer st)
          (to_u32 (offset + chunk_runlen ocl offset count))
          (to_u32 (count - chunk_runlen ocl offset count))) tr r →
  exec (write_loop (S fuel) ocl staging payload offset count)
    (chunk_events (block st) ++ tr) r.
Proof.
  intros Hnz Hfill Hlen Hrest. cbn [write_loop].
  rewrite (proj2 (Z.eqb_neq _ _) Hnz), Hfill. cbn.
  apply exec_send. cbn. rewrite Z.eqb_refl. cbn.
  apply exec_handshake. cbn. rewrite c_ne_same. cbn.
  apply exec_receive. cbn. rewrite c_ne_same. cbn.
  rewrite store_lt by done.
  rewrite list_lookup_total_insert_eq by done.
  rewrite Z.eqb_refl. cbn. done.
Qed.

(** What a run of the loop can come to. *)
Lemma write_loop_outcome (ocl : ocl_priv) :
  0 < bufalign ocl ≤ buflen ocl → u32 (buflen ocl) →
  ∀ (fuel : nat) (staging : list Z) (payload : list byte) (offset count : Z)
    tr r,
  u32 count →
  exec (write_loop fuel ocl staging payload offset count) tr r →
  (buflen ocl mod 4 = 0 →
   Z.of_nat (length staging) = buflen ocl / 4 + 3 →
   (Z.to_nat count ≤ length payload)%nat →
   ∀ f, r ≠ Faulted f)
  ∧ ((Z.to_nat count < fuel)%nat → r ≠ OutOfFuel).
Proof.
  intros Hal Hbl. induction fuel as [|fuel IH];
    intros staging payload offset count tr r Hc Hx.
  { cbn in Hx. exec_inv Hx. subst. split; [done|lia]. }
  cbn [write_loop] in Hx.
  destruct (Z.eqb_spec count 0) as [Hz|Hnz].
  { exec_inv Hx. subst. done. }
  destruct (chunk_runlen_safe ocl offset count) as (Hr1 & Hr2 & Hr3 & Hr4 & Hr5);
    [done..|].
  set (runlen := chunk_runlen ocl offset count) in *.
  destruct (fill_block ocl staging payload offset runlen) as [st|f] eqn:Hfill.
  - assert (Z.of_nat (length staging) = buflen ocl / 4 + 3 →
            buflen ocl mod 4 = 0 →
            (Z.to_nat count ≤ length payload)%nat →
            length (dcc_buffer st) = length staging
            ∧ length (buffer st) = (length payload - Z.to_nat runlen)%nat)
      as Hst.
    { intros Hlen H4 Hpay.
      destruct (fill_block_spec ocl staging (take (Z.to_nat runlen) payload)
                  (drop (Z.to_nat runlen) payload) offset runlen)
        as (st' & ws & Hfill' & _ & Hrest & Hlen' & _).
      - rewrite length_take. lia.
      - rewrite length_take. Z.div_mod_to_equations. lia.
      - rewrite take_drop, Hfill in Hfill'. injection Hfill' as <-.
        split; [done|]. by rewrite Hrest, length_drop. }
    cbn in Hx. exec_inv Hx.
    destruct (negb (rc =? ERROR_OK)); [exec_inv Hx; subst; done|].
    exec_inv Hx.
    destruct (negb (c_ne rc0 ERROR_OK =? 0)); [exec_inv Hx; subst; done|].
    exec_inv Hx.
    destruct (negb (c_ne rc1 ERROR_OK =? 0)); [exec_inv Hx; subst; done|].
    destruct (store (dcc_buffer st) 0 w) as [buf|f] eqn:Hstore.
    + unfold store in Hstore. case_decide; [|done]. injection Hstore as <-.
      destruct (negb (_ =? OCL_CMD_DONE)); [exec_inv Hx; subst; done|].
      apply IH in Hx as [IH1 IH2]; [|apply to_u32_range].
      split.
      * intros H4 Hlen Hpay. destruct (Hst Hlen H4 Hpay) as [Hl1 Hl2].
        apply IH1; [done| |].
        -- by rewrite length_insert, Hl1.
        -- rewrite Hl2. lia.
      * intros Hfuel. apply IH2. lia.
    + exec_inv Hx. subst. split; [|done].
      intros H4 Hlen Hpay. destruct (Hst Hlen H4 Hpay) as [Hl1 _].
      unfold store in Hstore. case_decide; [done|].
      unfold u32 in Hbl. Z.div_mod_to_equations. lia.
  - exec_inv Hx. subst. split; [|done].
    intros H4 Hlen Hpay.
    destruct (fill_block_spec ocl staging (take (Z.to_nat runlen) payload)
                (drop (Z.to_nat runlen) payload) offset runlen)
      as (st' & ws & Hfill' & _).
    + rewrite length_take. lia.
    + rewrite length_take. Z.div_mod_to_equations. lia.
    + rewrite take_drop, Hfill in Hfill'. done.
Qed.

End WriteLoop.

Lemma unpack_data (o : Z) (ws data : list Z) (pad : nat) :
  unpack_all ws
    = replicate (Z.to_nat (o mod 4)) 255 ++ data ++ replicate pad 255 →
  unpack o (length data) ws = data.
Proof.
  intros Hun. unfold unpack. rewrite Hun.
  rewrite drop_app_length' by (by rewrite length_replicate).
  by rewrite take_app_length.
Qed.

Lemma sends_app (tr1 tr2 : list event) :
  sends (tr1 ++ tr2) = sends tr1 ++ sends tr2.
Proof. apply omap_app. Qed.

Section Write.
Context `{ocl_env}.

Lemma chunks_done (fuel : nat) (ocl : ocl_priv) (offset : Z) :
  chunks fuel ocl offset 0 = [].
Proof. by destruct fuel. Qed.

Lemma write_loop_done (fuel : nat) (ocl : ocl_priv) (staging : list Z)
    (payload : list byte) (offset : Z) :
  exec (write_loop (S fuel) ocl staging payload offset 0) []
    (Returned ERROR_OK).
Proof. cbn. constructor. Qed.

(** The chunks of a range that fits the 32-bit offset space. *)
Lemma chunks_cover (ocl : ocl_priv) :
  0 < bufalign ocl ≤ buflen ocl → buflen ocl < 2 ^ 31 →
  ∀ (fuel : nat) (offset count : Z),
  0 ≤ offset → 0 ≤ count → offset + count ≤ 2 ^ 32 →
  count + offset mod bufalign ocl < 2 ^ 32 →
  (Z.to_nat count < fuel)%nat →
  covers offset (offset + count) (chunks fuel ocl offset count)
  ∧ Forall (λ c, c.2 = Z.min (offset + count - c.1)
                           (buflen ocl - c.1 mod bufalign ocl)
                 ∧ c.1 mod bufalign ocl + c.2 ≤ buflen ocl)
      (chunks fuel ocl offset count).
Proof.
  intros Hal Hbl. induction fuel as [|fuel IH];
    intros offset count Ho Hc Hfit Hnw Hfuel; [lia|].
  cbn [chunks]. destruct (Z.eqb_spec count 0) as [->|Hnz].
  { cbn [covers]. split; [lia|constructor]. }
  destruct (chunk_runlen_exact ocl offset count) as [Hr Hpos];
    [done|done|lia|done|].
  pose proof (Z.mod_pos_bound offset (bufalign ocl)) as Hm.
  set (r := chunk_runlen ocl offset count) in *.
  assert (to_u32 (count - r) = count - r) as Hc'.
  { apply to_u32_small. unfold u32. lia. }
  destruct (Z.eq_dec r count) as [Hall|Hpart].
  - rewrite Hc', Hall, Z.sub_diag, chunks_done. cbn [covers fst snd].
    split; [lia|]. constructor; [|constructor]. cbn [fst snd]. lia.
  - assert (to_u32 (offset + r) = offset + r) as Ho'.
    { apply to_u32_small. unfold u32. lia. }
    rewrite Hc', Ho'.
    destruct (IH (offset + r) (count - r)) as (Hcov & Hall); try lia.
    { pose proof (Z.mod_pos_bound (offset + r) (bufalign ocl)). lia. }
    replace (offset + r + (count - r)) with (offset + count) in * by lia.
    cbn [covers fst snd]. split; [done|].
    constructor; [cbn [fst snd]; lia|done].
Qed.

(** The loop on a range that fits the 32-bit offset space. *)
Lemma write_loop_chunks (ocl : ocl_priv) :
  0 < bufalign ocl ≤ buflen ocl → buflen ocl mod 4 = 0 →
  buflen ocl < 2 ^ 31 →
  ∀ (fuel : nat) (staging : list Z) (payload : list byte) (offset count : Z),
  Z.of_nat (length staging) = buflen ocl / 4 + 3 →
  0 ≤ offset → 0 ≤ count → offset + count ≤ 2 ^ 32 →
  count + offset mod bufalign ocl < 2 ^ 32 →
  length payload = Z.to_nat count →
  (Z.to_nat count < fuel)%nat →
  ∃ tr,
    exec (write_loop fuel ocl staging payload offset count) tr
      (Returned ERROR_OK)
    ∧ Forall2 (carries ocl payload offset) (chunks fuel ocl offset count)
        (sends tr).
Proof.
  intros Hal H4 Hbl. induction fuel as [|fuel IH];
    intros staging payload offset count Hlen Ho Hc Hfit Hnw Hpay Hfuel;
    [lia|].
  cbn [chunks]. destruct (Z.eqb_spec count 0) as [->|Hnz].
  { exists []. split; [apply write_loop_done|constructor]. }
  destruct (chunk_runlen_exact ocl offset count) as [Hr Hpos];
    [done|done|lia|done|].
  pose proof (Z.mod_pos_bound offset (bufalign ocl)) as Hm.
  pose proof (Z.mod_pos_bound (offset mod bufalign ocl) 4 eq_refl) as Hm4.
  set (r := chunk_runlen ocl offset count) in *.
  assert ((offset mod bufalign ocl) mod 4 ≤ offset mod bufalign ocl) as Hm4'.
  { apply Z.mod_le; lia. }
  destruct (fill_block_spec ocl staging (take (Z.to_nat r) payload)
              (drop (Z.to_nat r) payload) offset r)
    as (st & ws & Hfill & Hblk & Hrest & Hlen' & Hun).
  { rewrite length_take. lia. }
  { rewrite length_take. Z.div_mod_to_equations. lia. }
  rewrite take_drop in Hfill.
  assert (carries ocl payload offset (offset, r) (block st)) as Hfirst.
  { split; [cbn; lia|]. exists ws. cbn [fst snd]. split; [done|].
    rewrite Z.sub_diag. change (Z.to_nat 0) with 0%nat. rewrite drop_0.
    rewrite <- (unpack_data (offset mod bufalign ocl) ws
                  (map u8 (take (Z.to_nat r) payload)) _ Hun).
    f_equal. rewrite length_map, length_take. lia. }
  assert (0 < length (dcc_buffer st))%nat as Hst0.
  { rewrite Hlen'. Z.div_mod_to_equations. lia. }
  assert (to_u32 (count - r) = count - r) as Hc'.
  { apply to_u32_small. unfold u32. lia. }
  destruct (Z.eq_dec r count) as [Hall|Hpart].
  - (* the last chunk *)
    rewrite Hc', Hall, Z.sub_diag, chunks_done.
    exists (chunk_events (block st)). split.
    + rewrite <- (app_nil_r (chunk_events (block st))).
      apply write_loop_acked; [done..|].
      fold r. rewrite Hc', Hall, Z.sub_diag.
      destruct fuel; [lia|]. apply write_loop_done.
    + cbn. constructor; [|constructor]. by rewrite <- Hall.
  - assert (to_u32 (offset + r) = offset + r) as Ho'.
    { apply to_u32_small. unfold u32. lia. }
    rewrite Hc', Ho'.
    destruct (IH (<[0%nat:=OCL_CMD_DONE]> (dcc_buffer st)) (buffer st)
                (offset + r) (count - r)) as (tr & Hx & Hsent).
    { by rewrite length_insert, Hlen'. }
    { lia. }
    { lia. }
    { lia. }
    { pose proof (Z.mod_pos_bound (offset + r) (bufalign ocl)). lia. }
    { rewrite Hrest, length_drop. lia. }
    { lia. }
    exists (chunk_events (block st) ++ tr). split.
    + apply write_loop_acked; [done..|]. fold r. by rewrite Hc', Ho'.
    + rewrite sends_app. cbn [chunk_events sends omap app].
      constructor; [done|].
      eapply Forall2_impl; [|exact Hsent].
      intros [s n] blk (Hs & ws' & Hb' & Hu'). cbn [fst snd] in *.
      unfold carries. cbn [fst snd]. split; [lia|]. exists ws'.
      split; [done|].
      rewrite Hu', Hrest, drop_drop. do 3 f_equal. lia.
Qed.

End Write.

(** ** [ocl_write] *)

Section WriteProps.
Context `{ocl_env}.

Lemma ocl_write_probed_running (fuel : nat) (bank : flash_bank)
    (payload : list byte) (offset count : Z) :
  buflen (driver_priv bank) ≠ 0 → bufalign (driver_priv bank) ≠ 0 →
  target_state bank = TARGET_RUNNING →
  ocl_write fuel bank payload offset count
  = write_loop fuel (driver_priv bank)
      (replicate (Z.to_nat (buflen (driver_priv bank) / 4 + 3)) uninit_word)
      payload offset count.
Proof.
  intros Hbl Hba Hrun. unfold ocl_write.
  rewrite (proj2 (Z.eqb_neq _ _) Hbl), (proj2 (Z.eqb_neq _ _) Hba), Hrun,
    Z.eqb_refl.
  done.
Qed.

Lemma ocl_write_cases (fuel : nat) (bank : flash_bank)
    (payload : list byte) (offset count : Z) :
  (∃ rv, ocl_write fuel bank payload offset count = Ret (Returned rv))
  ∨ ocl_write fuel bank payload offset count
    = write_loop fuel (driver_priv bank)
        (replicate (Z.to_nat (buflen (driver_priv bank) / 4 + 3)) uninit_word)
        payload offset count.
Proof.
  unfold ocl_write.
  destruct (_ || _); [eauto|]. destruct (negb _); eauto.
Qed.

(** C3. Checksum word: the block sent for a chunk consists of the two
    header words, the packed words [ws] and one last word, which is the
    XOR, seeded with [OCL_CHKS_INIT], of all the words of [ws] in order;
    [ws] holds every packed word, the final partly filled one included
    (its words are as many as the bytes up to the last data byte need),
    and the checksum does not enter itself. *)
Theorem checksum_word (fuel : nat) (ocl : ocl_priv) (staging : list Z)
    (payload : list byte) (offset count : Z) :
  let runlen := chunk_runlen ocl offset count in
  let o := offset mod bufalign ocl in
  let n := Z.to_nat runlen in
  count ≠ 0 →
  (n ≤ length payload)%nat →
  o mod 4 + Z.of_nat n ≤ 4 * (Z.of_nat (length staging) - 3) →
  ∃ ws k,
    write_loop (S fuel) ocl staging payload offset count
    = Send ([to_u32 (Z.lor OCL_FLASH_BLOCK runlen); offset] ++ ws
            ++ [xor_checksum ws]) k
    ∧ unpack o n ws = map u8 (take n payload)
    ∧ Z.of_nat (length ws) = (o mod 4 + Z.of_nat n + 3) / 4.
Proof.
  intros runlen o n Hnz Hpay Hcap.
  destruct (fill_block_spec ocl staging (take n payload) (drop n payload)
              offset runlen)
    as (st & ws & Hfill & Hblk & _ & _ & Hun).
  { rewrite length_take. lia. }
  { rewrite length_take. fold o. lia. }
  rewrite take_drop in Hfill.
  destruct (write_loop_send fuel ocl staging payload offset count st)
    as [k Hk]; [done..|].
  exists ws, k. rewrite Hk, Hblk. split; [done|].
  fold o in Hun. split.
  - rewrite <- (unpack_data o ws (map u8 (take n payload)) _ Hun).
    f_equal. rewrite length_map, length_take. lia.
  - apply (f_equal length) in Hun.
    rewrite length_unpack_all, !length_app, !length_replicate, length_map,
      length_take in Hun.
    pose proof (Z.mod_pos_bound o 4 eq_refl).
    Z.div_mod_to_equations. lia.
Qed.

(** C9. Staging buffer bounds: on a bank with the geometry that a
    successful probe guarantees, and a payload that holds the bytes to
    write, no run of [ocl_write] faults: every store and load through the
    staging cursor, header words, packed words and checksum word of every
    chunk, stays inside the buffer of [buflen / 4 + 3] words (and no read
    leaves the payload). *)
Theorem staging_stores_in_bounds (fuel : nat) (bank : flash_bank)
    (payload : list byte) (offset count : Z) (tr : list event) (r : outcome) :
  let ocl := driver_priv bank in
  buflen ocl ≠ 0 → buflen ocl mod 4 = 0 →
  bufalign ocl ≠ 0 → bufalign ocl ≤ buflen ocl →
  u32 (buflen ocl) → u32 (bufalign ocl) → u32 count →
  (Z.to_nat count ≤ length payload)%nat →
  exec (ocl_write fuel bank payload offset count) tr r →
  r ≠ Faulted StagingOutOfBounds ∧ ∀ f, r ≠ Faulted f.
Proof.
  intros ocl Hbl H4 Hba Hle Hu Hua Hc Hpay Hx.
  cut (∀ f, r ≠ Faulted f); [by auto|]. subst ocl.
  destruct (ocl_write_cases fuel bank payload offset count) as [[rv Hw]|Hw];
    rewrite Hw in Hx.
  { exec_inv Hx. by subst. }
  apply (write_loop_outcome (driver_priv bank)) in Hx as [Hsafe _];
    try done.
  - apply Hsafe; [done| |done].
    rewrite length_replicate. unfold u32 in Hu.
    Z.div_mod_to_equations. lia.
  - unfold u32 in Hua. lia.
Qed.

(** C10, as amended.  Termination of the chunk loop: with a buffer
    alignment that is positive and not above the buffer length, [buflen -
    offset mod bufalign] is at least 1 and the unsigned 32-bit amount that
    an iteration subtracts from the remaining count is at least 1 and at
    most that count, so the remaining count strictly decreases; the chunk
    length itself, the [int] [runlen], is at least 1 and at most the
    remaining count when, in addition, the sum of the length test does
    not wrap and the buffer length is below 2^31.  With one unit of fuel
    per remaining byte and one to spare, [ocl_write] has runs and none of
    them runs out of fuel: the loop exits after finitely many chunks or
    at the first error. *)
Theorem write_terminates (bank : flash_bank) (payload : list byte)
    (offset count : Z) :
  let ocl := driver_priv bank in
  0 < bufalign ocl ≤ buflen ocl → u32 (buflen ocl) → u32 count →
  (count ≠ 0 →
   1 ≤ buflen ocl - offset mod bufalign ocl
   ∧ 1 ≤ to_u32 (chunk_runlen ocl offset count) ≤ count
   ∧ to_u32 (count - chunk_runlen ocl offset count) < count
   ∧ (count + offset mod bufalign ocl < 2 ^ 32 → buflen ocl < 2 ^ 31 →
      1 ≤ chunk_runlen ocl offset count ≤ count))
  ∧ ∀ fuel : nat, (Z.to_nat count < fuel)%nat →
      (∃ tr r, exec (ocl_write fuel bank payload offset count) tr r)
      ∧ ∀ tr r, exec (ocl_write fuel bank payload offset count) tr r →
                r ≠ OutOfFuel.
Proof.
  intros ocl Hal Hu Hc. subst ocl. split.
  - intros Hnz.
    destruct (chunk_runlen_safe (driver_priv bank) offset count)
      as (_ & _ & Hr3 & Hr4 & _); [done..|].
    pose proof (Z.mod_pos_bound offset (bufalign (driver_priv bank))).
    split; [lia|]. split; [lia|]. split; [lia|].
    intros Hnw Hbl.
    destruct (chunk_runlen_exact (driver_priv bank) offset count)
      as [Hr Hpos]; [done|done|unfold u32 in Hc; lia|done|].
    lia.
  - intros fuel Hfuel. split; [apply (exec_total _ 0 0)|].
    intros tr r Hx.
    destruct (ocl_write_cases fuel bank payload offset count) as [[rv Hw]|Hw];
      rewrite Hw in Hx.
    { exec_inv Hx. by subst. }
    apply (write_loop_outcome (driver_priv bank)) in Hx as [_ Hfin]; auto.
Qed.

(** C2, as amended.  Chunk sizing: for probed buffer values [BL] and [BA]
    ([BA] positive, dividing [BL] and not above it, [BL] below 2^31), a
    payload length [L] and an offset [X] such that the range from [X] to
    [X + L] lies in the 32-bit offset space and the sum [L + X mod BA]
    that the length test computes does not reach 2^32: the chunks of the
    loop cover the range from [X] to [X + L] exactly once in ascending
    order; each chunk is as long as the lesser of the remaining count and
    [BL - start mod BA], so that [start mod BA + length] never exceeds
    [BL]; and when the target runs, [BL] is a multiple of 4 and the
    payload holds [L] bytes, the acknowledged run of [ocl_write] returns
    [ERROR_OK] after sending, chunk by chunk, the blocks that carry the
    bytes of the chunks. *)
Theorem chunk_sizing (fuel : nat) (bank : flash_bank) (payload : list byte)
    (X L : Z) :
  let ocl := driver_priv bank in
  let BL := buflen ocl in
  let BA := bufalign ocl in
  0 < BA → (BA | BL) → BA ≤ BL → BL < 2 ^ 31 →
  0 ≤ X → 0 ≤ L → X + L ≤ 2 ^ 32 → L + X mod BA < 2 ^ 32 →
  (Z.to_nat L < fuel)%nat →
  covers X (X + L) (chunks fuel ocl X L)
  ∧ Forall (λ c, c.2 = Z.min (X + L - c.1) (BL - c.1 mod BA)
                 ∧ c.1 mod BA + c.2 ≤ BL)
      (chunks fuel ocl X L)
  ∧ (target_state bank = TARGET_RUNNING → BL mod 4 = 0 →
     length payload = Z.to_nat L →
     ∃ tr,
       exec (ocl_write fuel bank payload X L) tr (Returned ERROR_OK)
       ∧ Forall2 (carries ocl payload X) (chunks fuel ocl X L) (sends tr)).
Proof.
  intros ocl BL BA Hba Hdiv Hle Hbl HX HL Hfit Hnw Hfuel.
  subst ocl BL BA.
  destruct (chunks_cover (driver_priv bank)) with (fuel := fuel)
    (offset := X) (count := L) as [Hcov Hsz]; try done.
  split; [done|]. split; [done|].
  intros Hrun H4 Hpay.
  rewrite ocl_write_probed_running by (done || lia).
  apply write_loop_chunks; try done.
  rewrite length_replicate. Z.div_mod_to_equations. lia.
Qed.

End WriteProps.

(** ** [ocl_erase] and the precondition checks *)

Section EraseProps.
Context `{ocl_env}.

#[local] Arguments erase_response : simpl never.

Lemma sends_send (ws : list Z) (rc : Z) (tr : list event) :
  sends (EvSend ws rc :: tr) = ws :: sends tr.
Proof. reflexivity. Qed.

Lemma failed_test (rc : Z) :
  negb (c_ne rc ERROR_OK =? 0) = negb (rc =? ERROR_OK).
Proof. unfold c_ne. by destruct (rc =? ERROR_OK). Qed.

(** C5. Erase command: on a probed bank with a running target, the first
    and only packet that [ocl_erase] sends is the one-word erase-all
    command when the range is the whole bank ([first = 0] and
    [last = num_sectors - 1]), and the three-word erase-block command with
    [first] and [last] as operands for every other range. *)
Theorem erase_command (bank : flash_bank) (first last : Z) :
  let packet :=
    if decide (first = 0 ∧ last = num_sectors bank - 1)
    then [OCL_ERASE_ALL]
    else [OCL_ERASE_BLOCK; first; last] in
  num_sectors bank ≠ 0 → u32 (num_sectors bank) →
  target_state bank = TARGET_RUNNING →
  0 ≤ first < 2 ^ 31 → 0 ≤ last < 2 ^ 31 →
  (∃ k, ocl_erase bank first last = Send packet k)
  ∧ ∀ tr r, exec (ocl_erase bank first last) tr r → sends tr = [packet].
Proof.
  intros packet Hn Hu Hrun Hf Hl.
  assert (to_u32 first = first) as Hf' by (apply to_u32_small; unfold u32; lia).
  assert (to_u32 last = last) as Hl' by (apply to_u32_small; unfold u32; lia).
  assert (to_u32 (num_sectors bank - 1) = num_sectors bank - 1) as Hn'
    by (apply to_u32_small; unfold u32 in *; lia).
  unfold ocl_erase.
  rewrite (proj2 (Z.eqb_neq _ _) Hn), Hrun, Z.eqb_refl, Hf', Hl', Hn'.
  cbn [negb].
  assert (∀ buf tr r, exec (erase_response buf) tr r → sends tr = [])
    as Hfinish.
  { intros buf tr r Hx. unfold erase_response in Hx. cbn in Hx.
    exec_inv Hx. subst.
    destruct (negb _); [exec_inv Hx; by subst|].
    exec_inv Hx. subst.
    destruct (negb _); [exec_inv Hx; by subst|].
    destruct (negb _); exec_inv Hx; by subst. }
  subst packet. destruct (decide (first = 0 ∧ last = num_sectors bank - 1))
    as [[-> ->]|Hno].
  - rewrite !Z.eqb_refl. cbn. split; [eauto|].
    intros tr r Hx. exec_inv Hx. subst.
    destruct (negb _); [exec_inv Hx; by subst|].
    apply Hfinish in Hx. by rewrite sends_send, Hx.
  - replace ((first =? 0) && (last =? num_sectors bank - 1)) with false.
    2:{ symmetry. apply andb_false_iff.
        destruct (Z.eqb_spec first 0), (Z.eqb_spec last (num_sectors bank - 1));
          tauto. }
    cbn. split; [eauto|].
    intros tr r Hx. exec_inv Hx. subst.
    destruct (negb _); [exec_inv Hx; by subst|].
    apply Hfinish in Hx. by rewrite sends_send, Hx.
Qed.

(** C6, as amended.  Precondition checks: [ocl_write] and
    [ocl_auto_probe] fail with the bank-not-probed error, without any
    request to the channel, when the buffer length or the buffer alignment
    is zero; [ocl_erase] does so when the sector count is zero (it does not
    look at the buffer geometry); and past this check both [ocl_erase] and
    [ocl_write] fail with the target-not-running error, again without any
    request, unless the target is running. *)
Theorem precondition_checks (bank : flash_bank) :
  let ocl := driver_priv bank in
  (buflen ocl = 0 ∨ bufalign ocl = 0 →
   ocl_auto_probe bank = ERROR_FLASH_BANK_NOT_PROBED
   ∧ ∀ fuel payload offset count,
       ocl_write fuel bank payload offset count
       = Ret (Returned ERROR_FLASH_BANK_NOT_PROBED))
  ∧ (num_sectors bank = 0 →
     ∀ first last,
       ocl_erase bank first last = Ret ERROR_FLASH_BANK_NOT_PROBED)
  ∧ (target_state bank ≠ TARGET_RUNNING →
     (buflen ocl ≠ 0 → bufalign ocl ≠ 0 →
      ∀ fuel payload offset count,
        ocl_write fuel bank payload offset count
        = Ret (Returned ERROR_TARGET_NOT_RUNNING))
     ∧ (num_sectors bank ≠ 0 →
        ∀ first last,
          ocl_erase bank first last = Ret ERROR_TARGET_NOT_RUNNING)).
Proof.
  intros ocl. subst ocl. split; [|split].
  - intros Hz. split.
    + unfold ocl_auto_probe. destruct Hz as [-> | ->]; by rewrite ?orb_true_r.
    + intros fuel payload offset count. unfold ocl_write.
      destruct Hz as [-> | ->]; by rewrite ?orb_true_r.
  - intros Hz first last. unfold ocl_erase. by rewrite Hz.
  - intros Hrun. apply Z.eqb_neq in Hrun. split.
    + intros Hbl Hba fuel payload offset count. unfold ocl_write.
      by rewrite (proj2 (Z.eqb_neq _ _) Hbl), (proj2 (Z.eqb_neq _ _) Hba), Hrun.
    + intros Hn first last. unfold ocl_erase.
      by rewrite (proj2 (Z.eqb_neq _ _) Hn), Hrun.
Qed.

End EraseProps.

(** ** [ocl_probe] *)

Section ProbeProps.
Context `{ocl_env}.

#[local] Arguments probe_geometry : simpl never.

Lemma c_ne_1 (a b : Z) : a ≠ b → c_ne a b = 1.
Proof. unfold c_ne. intros Hne. by rewrite (proj2 (Z.eqb_neq _ _) Hne). Qed.

Lemma one_not_OK : 1 ≠ ERROR_OK.
Proof. rewrite ERROR_OK_zero. lia. Qed.

Lemma failed_not_OK : ERROR_FLASH_OPERATION_FAILED ≠ ERROR_OK.
Proof. rewrite ERROR_OK_zero. apply ERROR_FLASH_OPERATION_FAILED_nonzero. Qed.

Lemma invalid_not_OK : ERROR_FLASH_BANK_INVALID ≠ ERROR_OK.
Proof. rewrite ERROR_OK_zero. apply ERROR_FLASH_BANK_INVALID_nonzero. Qed.

(** The run in which the loader reports its parameters ends in the checks
    of the geometry. *)
Lemma probe_dialogue_run (bank : flash_bank) (stale : Z * Z)
    (base size n bufword : Z) :
  exec (ocl_probe bank) (probe_dialogue stale base size n bufword)
    (probe_geometry (with_parameters bank base size n bufword)).
Proof.
  unfold ocl_probe, probe_dialogue, receive_parameter. cbn.
  destruct stale as [rc0 w0].
  repeat (first [ apply exec_receive | apply exec_send | apply exec_handshake
                | apply exec_ret ];
          cbn; rewrite ?c_ne_same, ?Z.eqb_refl; cbn).
Qed.

Ltac probe_fail Hx :=
  exec_inv Hx; simplify_eq; unfold reported; cbn;
  rewrite ?Z.eqb_refl;
  repeat match goal with
         | Hne : ?a ≠ ERROR_OK |- context [?a =? ERROR_OK] =>
             rewrite (proj2 (Z.eqb_neq _ _) Hne)
         end;
  eauto 10.

Ltac probe_step Hx :=
  exec_inv Hx; rewrite ?failed_test in Hx;
  match type of Hx with
  | context [negb (?a =? ERROR_OK)] =>
      destruct (Z.eqb_spec a ERROR_OK) as [->|?]; cbn in Hx;
      [|rewrite ?c_ne_1 in Hx by done]
  end.

(** All runs of [ocl_probe]: a failure before the sector count is stored,
    a failure between the sector count and the buffer word, or the full
    dialogue. *)
Lemma ocl_probe_runs (bank : flash_bank) (tr : list event) (rc : Z)
    (bank' : flash_bank) :
  exec (ocl_probe bank) tr (rc, bank') →
  (rc ≠ ERROR_OK ∧ reported tr 9 = None ∧ reported tr 11 = None
   ∧ num_sectors bank' = num_sectors bank
   ∧ driver_priv bank' = driver_priv bank)
  ∨ (∃ n, rc ≠ ERROR_OK ∧ reported tr 9 = Some n ∧ reported tr 11 = None
          ∧ num_sectors bank' = n
          ∧ driver_priv bank' = driver_priv bank)
  ∨ (∃ stale base size n bufword,
       tr = probe_dialogue stale base size n bufword
       ∧ (rc, bank')
         = probe_geometry (with_parameters bank base size n bufword)).
Proof.
  intros Hx. unfold ocl_probe, receive_parameter in Hx. cbn in Hx.
  pose proof one_not_OK. pose proof failed_not_OK.
  exec_inv Hx.
  probe_step Hx; [|left; probe_fail Hx].
  probe_step Hx; [|left; probe_fail Hx].
  probe_step Hx; [|left; probe_fail Hx].
  destruct (Z.eqb_spec w0 OCL_CMD_DONE) as [->|?]; cbn in Hx;
    [|left; probe_fail Hx].
  probe_step Hx; [|left; probe_fail Hx].
  probe_step Hx; [|left; probe_fail Hx].
  probe_step Hx; [|left; probe_fail Hx].
  probe_step Hx; [|left; probe_fail Hx].
  probe_step Hx; [|left; probe_fail Hx].
  probe_step Hx; [|left; probe_fail Hx].
  probe_step Hx; [|right; left; probe_fail Hx].
  probe_step Hx; [|right; left; probe_fail Hx].
  right. right. exec_inv Hx. subst.
  match goal with
  | |- context [EvReceive 1 ?a ?b :: EvSend _ _ :: _] => exists (a, b)
  end.
  do 4 eexists. split; [reflexivity|done].
Qed.

Lemma probe_geometry_fields (bank : flash_bank) :
  num_sectors (probe_geometry bank).2 = num_sectors bank
  ∧ size (probe_geometry bank).2 = size bank
  ∧ buflen (driver_priv (probe_geometry bank).2) = buflen (driver_priv bank)
  ∧ target_state (probe_geometry bank).2 = target_state bank.
Proof.
  unfold probe_geometry. cbn.
  repeat match goal with
         | |- context [if ?c then _ else _] => destruct c; cbn
         end; done.
Qed.

(** The buffer alignment that the checks see: 1 for a reported 0. *)
Lemma probe_geometry_verdict (bank : flash_bank) :
  let n := num_sectors bank in
  let bl := buflen (driver_priv bank) in
  let ba := if bufalign (driver_priv bank) =? 0 then 1
            else bufalign (driver_priv bank) in
  (n = 0 ∨ size bank mod n ≠ 0 ∨ bl = 0 ∨ ba > bl ∨ bl mod ba ≠ 0
   ∨ bl mod 4 ≠ 0 →
   (probe_geometry bank).1 = ERROR_FLASH_BANK_INVALID)
  ∧ ((probe_geometry bank).1 = ERROR_OK →
     n ≠ 0 ∧ size bank mod n = 0
     ∧ sectors (probe_geometry bank).2
       = fill_sectors (Z.to_nat n) 0 (to_int (size bank / n))
           (resize (Z.to_nat n) uninit_sector (sectors bank)))
  ∧ (n ≠ 0 → size bank mod n = 0 →
     bufalign (driver_priv (probe_geometry bank).2) = ba).
Proof.
  intros n bl ba. subst n bl ba. unfold probe_geometry. cbn.
  pose proof invalid_not_OK.
  destruct (Z.eqb_spec (num_sectors bank) 0); cbn.
  { split; [done|]. split; [done|]. done. }
  destruct (Z.eqb_spec (size bank mod num_sectors bank) 0); cbn.
  2:{ split; [done|]. split; [done|]. done. }
  destruct (Z.eqb_spec (bufalign (driver_priv bank)) 0); cbn.
  - destruct (Z.eqb_spec (buflen (driver_priv bank)) 0); cbn.
    { split; [done|]. split; [done|]. done. }
    rewrite Z.gtb_ltb.
    destruct (Z.ltb_spec (buflen (driver_priv bank)) 1); cbn.
    { split; [done|]. split; [done|]. done. }
    destruct (Z.eqb_spec (buflen (driver_priv bank) mod 1) 0); cbn.
    2:{ split; [done|]. split; [done|]. done. }
    destruct (Z.eqb_spec (buflen (driver_priv bank) mod 4) 0); cbn.
    2:{ split; [done|]. split; [done|]. done. }
    split; [|done]. intros [?|[?|[?|[?|[?|?]]]]]; lia.
  - destruct (Z.eqb_spec (buflen (driver_priv bank)) 0); cbn.
    { split; [done|]. split; [done|]. done. }
    rewrite Z.gtb_ltb.
    destruct (Z.ltb_spec (buflen (driver_priv bank))
                (bufalign (driver_priv bank))); cbn.
    { split; [done|]. split; [done|]. done. }
    destruct (Z.eqb_spec (buflen (driver_priv bank)
                          mod bufalign (driver_priv bank)) 0); cbn.
    2:{ split; [done|]. split; [done|]. done. }
    destruct (Z.eqb_spec (buflen (driver_priv bank) mod 4) 0); cbn.
    2:{ split; [done|]. split; [done|]. done. }
    split; [|done]. intros [?|[?|[?|[?|[?|?]]]]]; lia.
Qed.

Lemma ocl_erase_unprobed (bank : flash_bank) (first last : Z) :
  num_sectors bank = 0 →
  ocl_erase bank first last = Ret ERROR_FLASH_BANK_NOT_PROBED.
Proof. intros Hz. unfold ocl_erase. by rewrite Hz. Qed.

Lemma ocl_write_unprobed (fuel : nat) (bank : flash_bank)
    (payload : list byte) (offset count : Z) :
  buflen (driver_priv bank) = 0 ∨ bufalign (driver_priv bank) = 0 →
  ocl_write fuel bank payload offset count
  = Ret (Returned ERROR_FLASH_BANK_NOT_PROBED).
Proof.
  intros Hz. unfold ocl_write.
  destruct Hz as [-> | ->]; by rewrite ?orb_true_r.
Qed.



(** C4. Probe validation: when the loader acknowledges the probe and
    reports a geometry that breaks any one of the conditions (sector count
    positive; total size a multiple of the sector count; buffer length
    positive; buffer alignment, with 1 taken for a reported 0, not above
    the buffer length and dividing it; buffer length a multiple of 4),
    [ocl_probe] returns the bank-invalid error; and once the sector checks
    are passed the stored alignment is the defaulted one. *)
Theorem probe_rejects_geometry (bank : flash_bank) (stale : Z * Z)
    (base size n bufword : Z) :
  let bl := Z.land bufword 0xffff in
  let ba := if Z.shiftr bufword 16 =? 0 then 1 else Z.shiftr bufword 16 in
  n = 0 ∨ size mod n ≠ 0 ∨ bl = 0 ∨ ba > bl ∨ bl mod ba ≠ 0
  ∨ bl mod 4 ≠ 0 →
  ∃ bank',
    exec (ocl_probe bank) (probe_dialogue stale base size n bufword)
      (ERROR_FLASH_BANK_INVALID, bank')
    ∧ (n ≠ 0 → size mod n = 0 → bufalign (driver_priv bank') = ba).
Proof.
  intros bl ba Hbad.
  pose proof (probe_dialogue_run bank stale base size n bufword) as Hx.
  destruct (probe_geometry_verdict (with_parameters bank base size n bufword))
    as (Hinv & _ & Hal).
  cbn in Hinv, Hal. specialize (Hinv Hbad).
  destruct (probe_geometry _) as [rc bank'] eqn:Hg. cbn in *. subst rc.
  exists bank'. done.
Qed.

(** What a failed probe leaves behind, in general: the probe resets
    nothing, the bank keeps the sector count and the buffer length that
    were received before the failure, and its previous ones where the
    failure came first.  A later
    erase fails with the bank-not-probed error, without any request, when
    the sector count left in the bank is zero, and otherwise, on a running
    target, goes on to send its command; a later write fails with the
    bank-not-probed error when the buffer length or alignment left in the
    bank is zero, and otherwise, on a running target, enters its loop. *)
Theorem probe_failure_keeps_geometry (bank : flash_bank) (tr : list event)
    (rc : Z) (bank' : flash_bank) :
  exec (ocl_probe bank) tr (rc, bank') →
  rc ≠ ERROR_OK →
  let ocl := driver_priv bank' in
  num_sectors bank' = default (num_sectors bank) (reported tr 9)
  ∧ buflen ocl
    = default (buflen (driver_priv bank))
        ((λ w, Z.land w 0xffff) <$> reported tr 11)
  ∧ (num_sectors bank' = 0 →
     ∀ first last,
       ocl_erase bank' first last = Ret ERROR_FLASH_BANK_NOT_PROBED)
  ∧ (num_sectors bank' ≠ 0 → target_state bank' = TARGET_RUNNING →
     ∀ first last, ∃ ws k, ocl_erase bank' first last = Send ws k)
  ∧ (buflen ocl = 0 ∨ bufalign ocl = 0 →
     ∀ fuel payload offset count,
       ocl_write fuel bank' payload offset count
       = Ret (Returned ERROR_FLASH_BANK_NOT_PROBED))
  ∧ (buflen ocl ≠ 0 → bufalign ocl ≠ 0 →
     target_state bank' = TARGET_RUNNING →
     ∀ fuel payload offset count,
       ocl_write fuel bank' payload offset count
       = write_loop fuel ocl
           (replicate (Z.to_nat (buflen ocl / 4 + 3)) uninit_word)
           payload offset count).
Proof.
  intros Hx Hrc ocl. subst ocl.
  assert (num_sectors bank' = default (num_sectors bank) (reported tr 9)
          ∧ buflen (driver_priv bank')
            = default (buflen (driver_priv bank))
                ((λ w, Z.land w 0xffff) <$> reported tr 11)) as [Hn Hb].
  { apply ocl_probe_runs in Hx
      as [(_ & -> & -> & Hn & Hp)
         |[(n & _ & -> & -> & Hn & Hp)
          |(stale & base & size & n & w & -> & Hg)]].
    - by rewrite Hn, Hp.
    - by rewrite Hn, Hp.
    - destruct (probe_geometry_fields
                  (with_parameters bank base size n w)) as (Hn & _ & Hb & _).
      rewrite <- Hg in Hn, Hb. cbn in Hn, Hb.
      unfold reported. cbn. by rewrite Z.eqb_refl. }
  split; [done|]. split; [done|]. split; [|split; [|split]].
  - intros Hz first last. by apply ocl_erase_unprobed.
  - intros Hnz Hrun first last. unfold ocl_erase.
    rewrite (proj2 (Z.eqb_neq _ _) Hnz), Hrun, Z.eqb_refl. cbn [negb].
    destruct (_ && _); cbn; eauto.
  - intros Hz fuel payload offset count. by apply ocl_write_unprobed.
  - intros Hbl Hba Hrun fuel payload offset count.
    by apply ocl_write_probed_running.
Qed.


End ProbeProps.

(** * Further properties of the OCL driver *)

Section ConfigureProbe.
Context `{ocl_env}.

#[local] Arguments probe_geometry : simpl never.

(** X1. Configuration: [ocl_flash_bank_command] called with fewer than 6
    arguments returns [ERROR_FLASH_BANK_INVALID]; with 6 or more and a
    failure of [arm7_9_get_arch_pointers] it returns the code of that
    call; in both cases the bank is left as it was.  Otherwise it returns
    [ERROR_OK] and changes the bank in its private data only, to buffer
    length 0 and buffer alignment 1, so that the bank counts as not
    probed: the auto-probe check and every write fail with the
    bank-not-probed error, the write without any request to the
    channel. *)
Theorem bank_command_leaves_unprobed (argc arch : Z) (bank : flash_bank) :
  let rc := (ocl_flash_bank_command argc arch bank).1 in
  let bank' := (ocl_flash_bank_command argc arch bank).2 in
  (argc < 6 → rc = ERROR_FLASH_BANK_INVALID ∧ bank' = bank)
  ∧ (6 ≤ argc → arch ≠ ERROR_OK → rc = arch ∧ bank' = bank)
  ∧ (6 ≤ argc → arch = ERROR_OK →
     rc = ERROR_OK
     ∧ bank' = set_driver_priv {| buflen := 0; bufalign := 1 |} bank
     ∧ ocl_auto_probe bank' = ERROR_FLASH_BANK_NOT_PROBED
     ∧ ∀ fuel payload offset count,
         ocl_write fuel bank' payload offset count
         = Ret (Returned ERROR_FLASH_BANK_NOT_PROBED))
  ∧ (rc ≠ ERROR_OK → bank' = bank).
Proof.
  unfold ocl_flash_bank_command. pose proof invalid_not_OK.
  destruct (Z.ltb_spec argc 6); cbn.
  { split; [done|]. split; [lia|]. split; [lia|done]. }
  destruct (Z.eqb_spec arch ERROR_OK) as [->|Harch]; cbn.
  - split; [lia|]. split; [done|]. split; [|done].
    intros _ _. done.
  - split; [lia|]. split; [done|]. split; [done|done].
Qed.

(** X2. Purge: the word that [ocl_probe] receives first, and the return
    code of that receive, have no influence on the run: with any other
    answer to it the same requests follow and the same result comes out. *)
Theorem probe_ignores_stale_word (bank : flash_bank) (rc w rc' w' : Z)
    (tr : list event) (r : Z * flash_bank) :
  exec (ocl_probe bank) (EvReceive 1 rc w :: tr) r →
  exec (ocl_probe bank) (EvReceive 1 rc' w' :: tr) r.
Proof.
  unfold ocl_probe. cbn. intros Hx.
  apply exec_Receive_inv in Hx as (? & ? & ? & [= <- <- <-] & Hx).
  by apply exec_receive.
Qed.

Lemma probe_geometry_accepts (bank : flash_bank) :
  let ba := if bufalign (driver_priv bank) =? 0 then 1
            else bufalign (driver_priv bank) in
  (probe_geometry bank).1 = ERROR_OK →
  probe_geometry bank
  = (ERROR_OK,
     {| base := base bank; size := size bank;
        num_sectors := num_sectors bank;
        sectors :=
          fill_sectors (Z.to_nat (num_sectors bank)) 0
            (to_int (size bank / num_sectors bank))
            (resize (Z.to_nat (num_sectors bank)) uninit_sector
               (sectors bank));
        target_state := target_state bank;
        driver_priv := {| buflen := buflen (driver_priv bank);
                          bufalign := ba |} |})
  ∧ buflen (driver_priv bank) ≠ 0
  ∧ ba ≤ buflen (driver_priv bank)
  ∧ buflen (driver_priv bank) mod ba = 0
  ∧ buflen (driver_priv bank) mod 4 = 0.
Proof.
  intros ba. subst ba. unfold probe_geometry.
  destruct bank as [b s n secs ts [bl ba]]. cbn.
  pose proof invalid_not_OK.
  destruct (Z.eqb_spec n 0); cbn; [done|].
  destruct (Z.eqb_spec (s mod n) 0); cbn; [|done].
  destruct (Z.eqb_spec ba 0) as [->|?]; cbn.
  - destruct (Z.eqb_spec bl 0); cbn; [done|].
    rewrite Z.gtb_ltb. destruct (Z.ltb_spec bl 1); cbn; [done|].
    destruct (Z.eqb_spec (bl mod 1) 0); cbn; [|done].
    destruct (Z.eqb_spec (bl mod 4) 0); cbn; [|done].
    intros _. repeat split; (done || lia).
  - destruct (Z.eqb_spec bl 0); cbn; [done|].
    rewrite Z.gtb_ltb. destruct (Z.ltb_spec bl ba); cbn; [done|].
    destruct (Z.eqb_spec (bl mod ba) 0); cbn; [|done].
    destruct (Z.eqb_spec (bl mod 4) 0); cbn; [|done].
    intros _. repeat split; (done || lia).
Qed.

(** X3. Probe acceptance: when the loader acknowledges the probe and
    reports a geometry that meets every condition, [ocl_probe] returns
    [ERROR_OK] and the bank holds the reported base, size and sector
    count, the low 16 bits of the buffer word as buffer length and its
    high bits (1 for 0) as buffer alignment; the target state is
    untouched and the auto-probe check passes. *)
Theorem probe_accepts_geometry (bank : flash_bank) (stale : Z * Z)
    (base_addr total n bufword : Z) :
  let bl := Z.land bufword 0xffff in
  let ba := if Z.shiftr bufword 16 =? 0 then 1 else Z.shiftr bufword 16 in
  n ≠ 0 → total mod n = 0 → bl ≠ 0 → ba ≤ bl → bl mod ba = 0 →
  bl mod 4 = 0 →
  ∃ bank',
    exec (ocl_probe bank) (probe_dialogue stale base_addr total n bufword)
      (ERROR_OK, bank')
    ∧ base bank' = base_addr ∧ size bank' = total ∧ num_sectors bank' = n
    ∧ driver_priv bank' = {| buflen := bl; bufalign := ba |}
    ∧ target_state bank' = target_state bank
    ∧ ocl_auto_probe bank' = ERROR_OK.
Proof.
  intros bl ba Hn Hs Hbl Hle Hdiv H4.
  pose proof (probe_dialogue_run bank stale base_addr total n bufword) as Hx.
  set (b := with_parameters bank base_addr total n bufword) in *.
  assert ((probe_geometry b).1 = ERROR_OK) as Hok.
  { unfold probe_geometry. cbn. fold bl.
    rewrite (proj2 (Z.eqb_neq _ _) Hn), Hs. cbn.
    assert ((if Z.shiftr bufword 16 =? 0 then 1 else Z.shiftr bufword 16)
            = ba) as Hba by done.
    destruct (Z.eqb_spec (Z.shiftr bufword 16) 0) as [Hz|Hz]; cbn; fold bl;
      rewrite (proj2 (Z.eqb_neq _ _) Hbl); cbn;
      rewrite Z.gtb_ltb, (proj2 (Z.ltb_ge _ _)) by lia; cbn;
      rewrite Hba, Hdiv, H4; done. }
  destruct (probe_geometry_accepts b Hok) as (Hg & _).
  rewrite Hg in Hx. eexists. split; [exact Hx|]. cbn.
  repeat split. unfold ocl_auto_probe. cbn. fold bl ba.
  rewrite (proj2 (Z.eqb_neq _ _) Hbl).
  assert (ba ≠ 0) as Hba
    by (subst ba; destruct (Z.eqb_spec (Z.shiftr bufword 16) 0); lia).
  by rewrite (proj2 (Z.eqb_neq _ _) Hba).
Qed.

(** X4. What a successful probe guarantees: the buffer length is a
    non-zero multiple of 4 below 2^16, the sector count is non-zero, the
    buffer length is a multiple of the buffer alignment and not below it;
    and when the alignment is not negative (it is an unsigned field),
    every later write on a running or stopped target, with a payload that
    holds the bytes to write and fuel above the count, returns a code: it
    neither faults nor fails to terminate. *)
Theorem probe_enables_write (bank : flash_bank) (tr : list event)
    (bank' : flash_bank) :
  let ocl := driver_priv bank' in
  exec (ocl_probe bank) tr (ERROR_OK, bank') →
  0 < buflen ocl < 2 ^ 16 ∧ buflen ocl mod 4 = 0
  ∧ bufalign ocl ≠ 0 ∧ bufalign ocl ≤ buflen ocl
  ∧ buflen ocl mod bufalign ocl = 0
  ∧ num_sectors bank' ≠ 0
  ∧ ocl_auto_probe bank' = ERROR_OK
  ∧ (0 ≤ bufalign ocl →
     ∀ (fuel : nat) payload offset count tr' r,
       u32 count → (Z.to_nat count ≤ length payload)%nat →
       (Z.to_nat count < fuel)%nat →
       exec (ocl_write fuel bank' payload offset count) tr' r →
       ∃ rv, r = Returned rv).
Proof.
  intros ocl Hx. subst ocl.
  apply ocl_probe_runs in Hx
    as [(? & _)|[(n & ? & _)|(stale & base & size & n & w & -> & Hg)]];
    [done..|].
  set (b := with_parameters bank base size n w) in *.
  assert ((probe_geometry b).1 = ERROR_OK) as Hok by by rewrite <- Hg.
  destruct (probe_geometry_accepts b Hok) as (Hg' & Hbl & Hle & Hdiv & H4).
  destruct (probe_geometry_verdict b) as (_ & Hsec & _).
  destruct (Hsec Hok) as (Hn & _).
  rewrite Hg' in Hg. injection Hg as ->. cbn in *.
  set (ba := if Z.shiftr w 16 =? 0 then 1 else Z.shiftr w 16) in *.
  assert (0 ≤ Z.land w 0xffff < 2 ^ 16) as Hrange.
  { change 0xffff with (Z.ones 16). rewrite Z.land_ones by lia.
    apply Z.mod_pos_bound. lia. }
  assert (ba ≠ 0) as Hba
    by (subst ba; destruct (Z.eqb_spec (Z.shiftr w 16) 0); lia).
  split; [lia|]. split; [done|]. split; [done|]. split; [done|].
  split; [done|]. split; [done|]. split.
  { unfold ocl_auto_probe. cbn.
    by rewrite (proj2 (Z.eqb_neq _ _) Hbl), (proj2 (Z.eqb_neq _ _) Hba). }
  intros Hpos fuel payload offset count tr' r Hc Hpay Hfuel Hw.
  match type of Hw with exec (ocl_write _ ?bk _ _ _) _ _ => set (bank' := bk) in * end.
  destruct (ocl_write_cases fuel bank' payload offset count) as [[rv Hc']|Hc'];
    rewrite Hc' in Hw.
  { exec_inv Hw. subst. eauto. }
  subst bank'. cbn in Hw.
  set (ocl := {| buflen := Z.land w 0xffff; bufalign := ba |}) in *.
  assert (0 < bufalign ocl ≤ buflen ocl) as Hal by (cbn; lia).
  assert (u32 (buflen ocl)) as Hu by (unfold u32; cbn; lia).
  destruct (write_loop_outcome ocl Hal Hu _ _ _ _ _ _ _ Hc Hw)
    as [Hsafe Hfin].
  destruct r as [rv|f|]; [eauto| |].
  - exfalso. eapply Hsafe; try done.
    rewrite length_replicate. cbn. Z.div_mod_to_equations. lia.
  - exfalso. by apply Hfin.
Qed.



End ConfigureProbe.

Section EraseRuns.
Context `{ocl_env}.

#[local] Arguments erase_response : simpl never.

(** X6. Results of an erase: [ocl_erase] returns one of five codes.  It
    returns [ERROR_OK] exactly in the runs where its packet is sent, the
    handshake on the write bit with the 1 s timeout succeeds and the
    received response is [OCL_CMD_DONE]; a failure of the channel ends the
    run at the failing request with the result 1, not with the code of
    the channel; a response other than [OCL_CMD_DONE] gives
    [ERROR_FLASH_OPERATION_FAILED]; and without a request the result is
    one of the two precondition errors. *)
Theorem erase_results (bank : flash_bank) (first last : Z)
    (tr : list event) (r : Z) :
  exec (ocl_erase bank first last) tr r →
  (tr = [] ∧ (r = ERROR_FLASH_BANK_NOT_PROBED
              ∨ r = ERROR_TARGET_NOT_RUNNING))
  ∨ (∃ pkt rc, rc ≠ ERROR_OK ∧ r = 1 ∧ tr = [EvSend pkt rc])
  ∨ (∃ pkt rc, rc ≠ ERROR_OK ∧ r = 1
       ∧ tr = [EvSend pkt ERROR_OK;
               EvHandshake EICE_COMM_CTRL_WBIT 1000 rc])
  ∨ (∃ pkt rc w, rc ≠ ERROR_OK ∧ r = 1
       ∧ tr = [EvSend pkt ERROR_OK;
               EvHandshake EICE_COMM_CTRL_WBIT 1000 ERROR_OK;
               EvReceive 1 rc w])
  ∨ (∃ pkt w, w ≠ OCL_CMD_DONE ∧ r = ERROR_FLASH_OPERATION_FAILED
       ∧ tr = [EvSend pkt ERROR_OK;
               EvHandshake EICE_COMM_CTRL_WBIT 1000 ERROR_OK;
               EvReceive 1 ERROR_OK w])
  ∨ (∃ pkt, r = ERROR_OK
       ∧ tr = [EvSend pkt ERROR_OK;
               EvHandshake EICE_COMM_CTRL_WBIT 1000 ERROR_OK;
               EvReceive 1 ERROR_OK OCL_CMD_DONE]).
Proof.
  assert (∀ buf tr r, (1 < length buf)%nat →
    exec (erase_response buf) tr r →
    (∃ rc, rc ≠ ERROR_OK ∧ r = 1
       ∧ tr = [EvHandshake EICE_COMM_CTRL_WBIT 1000 rc])
    ∨ (∃ rc w, rc ≠ ERROR_OK ∧ r = 1
         ∧ tr = [EvHandshake EICE_COMM_CTRL_WBIT 1000 ERROR_OK;
                 EvReceive 1 rc w])
    ∨ (∃ w, w ≠ OCL_CMD_DONE ∧ r = ERROR_FLASH_OPERATION_FAILED
         ∧ tr = [EvHandshake EICE_COMM_CTRL_WBIT 1000 ERROR_OK;
                 EvReceive 1 ERROR_OK w])
    ∨ (r = ERROR_OK
       ∧ tr = [EvHandshake EICE_COMM_CTRL_WBIT 1000 ERROR_OK;
               EvReceive 1 ERROR_OK OCL_CMD_DONE])) as Hresp.
  { clear. intros buf tr r Hbuf Hx. unfold erase_response in Hx.
    cbn in Hx.
    exec_inv Hx. subst. rewrite failed_test in Hx.
    destruct (Z.eqb_spec rc ERROR_OK) as [->|Hrc]; cbn in Hx.
    2:{ exec_inv Hx. subst. left. exists rc. by rewrite c_ne_1. }
    exec_inv Hx. subst. rewrite failed_test in Hx.
    destruct (Z.eqb_spec rc ERROR_OK) as [->|Hrc]; cbn in Hx.
    2:{ exec_inv Hx. subst. right. left. exists rc, w.
        by rewrite c_ne_1. }
    rewrite list_lookup_total_insert_eq in Hx by done.
    destruct (Z.eqb_spec w OCL_CMD_DONE) as [->|Hw]; cbn in Hx;
      exec_inv Hx; subst.
    - by do 3 right.
    - do 2 right. left. eauto. }
  intros Hx. unfold ocl_erase in Hx.
  destruct (num_sectors bank =? 0).
  { exec_inv Hx. subst. left. eauto. }
  destruct (negb (target_state bank =? TARGET_RUNNING)).
  { exec_inv Hx. subst. left. eauto. }
  right.
  destruct (_ && _); cbn in Hx; exec_inv Hx; subst;
    rewrite failed_test in Hx;
    (destruct (Z.eqb_spec rc ERROR_OK) as [->|Hrc]; cbn in Hx;
     [|exec_inv Hx; subst; left; eexists _, rc; by rewrite c_ne_1]);
    right;
    (apply Hresp in Hx; [|cbn; lia]);
    destruct Hx
      as [(rc & ? & -> & ->)|[(rc & w & ? & -> & ->)
          |[(w & ? & -> & ->)|(-> & ->)]]]; eauto 10.
Qed.

End EraseRuns.

(** ** Every run of the write loop *)

Section WriteRuns.
Context `{ocl_env}.

Lemma pack_byte_frame (st st' : packer) :
  pack_byte st = Ok st' →
  length (dcc_buffer st') = length (dcc_buffer st)
  ∧ (dcc_bufptr st ≤ dcc_bufptr st')%nat
  ∧ ∀ i, (i < dcc_bufptr st)%nat → dcc_buffer st' !! i = dcc_buffer st !! i.
Proof.
  unfold pack_byte, merge_byte, next_byte, load, store. intros Hx.
  repeat (case_match; simplify_eq/=; try done);
    rewrite ?length_insert; (split; [done|]); (split; [lia|]);
    intros i Hi; rewrite ?list_lookup_insert_ne by lia; done.
Qed.

Lemma pack_bytes_frame (n : nat) (st st' : packer) :
  pack_bytes n st = Ok st' →
  length (dcc_buffer st') = length (dcc_buffer st)
  ∧ (dcc_bufptr st ≤ dcc_bufptr st')%nat
  ∧ ∀ i, (i < dcc_bufptr st)%nat → dcc_buffer st' !! i = dcc_buffer st !! i.
Proof.
  revert st. induction n as [|n IH]; intros st Hx; cbn in Hx.
  { by simplify_eq. }
  destruct (pack_byte st) as [st1|] eqn:H1; [|done]. cbn in Hx.
  apply pack_byte_frame in H1 as (Hl1 & Hp1 & Hf1).
  apply IH in Hx as (Hl & Hp & Hf).
  split; [congruence|]. split; [lia|].
  intros i Hi. rewrite Hf by lia. by apply Hf1.
Qed.

(** The block of a chunk, whatever the buffer values: it lies within the
    staging buffer and starts with the two header words. *)
Lemma fill_block_frame (ocl : ocl_priv) (staging : list Z)
    (payload : list byte) (offset runlen : Z) (st : packer) :
  fill_block ocl staging payload offset runlen = Ok st →
  length (dcc_buffer st) = length staging
  ∧ (3 ≤ dcc_bufptr st ≤ length staging)%nat
  ∧ dcc_buffer st !! 0%nat = Some (to_u32 (Z.lor OCL_FLASH_BLOCK runlen))
  ∧ dcc_buffer st !! 1%nat = Some offset.
Proof.
  unfold fill_block, store. intros Hx.
  repeat (case_decide; [|done]; cbn in Hx).
  match type of Hx with context [pack_bytes ?n ?s] =>
    destruct (pack_bytes n s) as [st1|] eqn:Hp; [|done] end.
  cbn in Hx. apply pack_bytes_frame in Hp as (Hl & Hp & Hf).
  cbn in Hl, Hp, Hf. rewrite !length_insert in *.
  pose proof (Hf 0%nat ltac:(lia)) as Hw0.
  pose proof (Hf 1%nat ltac:(lia)) as Hw1.
  rewrite list_lookup_insert_ne, list_lookup_insert_ne in Hw0 by lia.
  rewrite list_lookup_insert_eq in Hw0 by lia.
  rewrite list_lookup_insert_ne in Hw1 by lia.
  rewrite list_lookup_insert_eq in Hw1 by (rewrite length_insert; lia).
  unfold load in Hx.
  destruct (negb (byteofs st1 =? 0)); cbn in Hx.
  - destruct (dcc_buffer st1 !! dcc_bufptr st1) eqn:Hw; [|done]. cbn in Hx.
    case_decide; [|done]. cbn in Hx. simplify_eq. cbn.
    rewrite length_insert, !list_lookup_insert_ne by lia.
    repeat split; (done || lia).
  - case_decide; [|done]. cbn in Hx. simplify_eq. cbn.
    rewrite length_insert, !list_lookup_insert_ne by lia.
    repeat split; (done || lia).
Qed.

Lemma block_header (st : packer) (i : nat) :
  (i < dcc_bufptr st)%nat → block st !! i = dcc_buffer st !! i.
Proof. intros. unfold block. by rewrite lookup_take_lt. Qed.

Lemma length_block (st : packer) :
  (dcc_bufptr st ≤ length (dcc_buffer st))%nat →
  length (block st) = dcc_bufptr st.
Proof. intros. unfold block. rewrite length_take. lia. Qed.

(** One iteration of the loop, from the run: the block is sent; then the
    run either stops at the first request that fails or at a response
    that is not [OCL_CMD_DONE], or goes on with the next iteration. *)
Lemma write_loop_step (fuel : nat) (ocl : ocl_priv) (staging : list Z)
    (payload : list byte) (offset count : Z) (st : packer) tr r :
  count ≠ 0 →
  fill_block ocl staging payload offset (chunk_runlen ocl offset count)
    = Ok st →
  exec (write_loop (S fuel) ocl staging payload offset count) tr r →
  (∃ rc, rc ≠ ERROR_OK ∧ r = Returned rc ∧ tr = [EvSend (block st) rc])
  ∨ (∃ rc, rc ≠ ERROR_OK ∧ r = Returned 1
       ∧ tr = [EvSend (block st) ERROR_OK;
               EvHandshake EICE_COMM_CTRL_WBIT 1000 rc])
  ∨ (∃ rc w, rc ≠ ERROR_OK ∧ r = Returned 1
       ∧ tr = [EvSend (block st) ERROR_OK;
               EvHandshake EICE_COMM_CTRL_WBIT 1000 ERROR_OK;
               EvReceive 1 rc w])
  ∨ (∃ w, w ≠ OCL_CMD_DONE ∧ r = Returned ERROR_FLASH_OPERATION_FAILED
       ∧ tr = [EvSend (block st) ERROR_OK;
               EvHandshake EICE_COMM_CTRL_WBIT 1000 ERROR_OK;
               EvReceive 1 ERROR_OK w])
  ∨ (∃ tr',
       tr = chunk_events (block st) ++ tr'
       ∧ exec (write_loop fuel ocl (<[0%nat:=OCL_CMD_DONE]> (dcc_buffer st))
                 (buffer st)
                 (to_u32 (offset + chunk_runlen ocl offset count))
                 (to_u32 (count - chunk_runlen ocl offset count))) tr' r).
Proof.
  intros Hnz Hfill Hx.
  destruct (fill_block_frame _ _ _ _ _ _ Hfill) as (Hlen & Hptr & _).
  cbn [write_loop] in Hx.
  rewrite (proj2 (Z.eqb_neq _ _) Hnz), Hfill in Hx. cbn in Hx.
  exec_inv Hx. subst. fold (block st).
  destruct (Z.eqb_spec rc ERROR_OK) as [->|Hrc]; cbn in Hx.
  2:{ exec_inv Hx. subst. left. eauto. }
  right. exec_inv Hx. subst. rewrite failed_test in Hx.
  destruct (Z.eqb_spec rc ERROR_OK) as [->|Hrc]; cbn in Hx.
  2:{ exec_inv Hx. subst. left. exists rc. by rewrite c_ne_1. }
  right. exec_inv Hx. subst. rewrite failed_test in Hx.
  destruct (Z.eqb_spec rc ERROR_OK) as [->|Hrc]; cbn in Hx.
  2:{ exec_inv Hx. subst. left. exists rc, w. by rewrite c_ne_1. }
  right. rewrite store_lt in Hx by lia.
  rewrite list_lookup_total_insert_eq in Hx by lia.
  destruct (Z.eqb_spec w OCL_CMD_DONE) as [->|Hw]; cbn in Hx.
  - right. eexists. split; [done|]. done.
  - exec_inv Hx. subst. left. eauto.
Qed.

(** Every run of the loop: acknowledged chunks, then at most one chunk
    that failed. *)
Lemma write_loop_runs (ocl : ocl_priv) (fuel : nat) (staging : list Z)
    (payload : list byte) (offset count : Z) (tr : list event)
    (r : outcome) :
  exec (write_loop fuel ocl staging payload offset count) tr r →
  ∃ blks tail,
    tr = (blks ≫= chunk_events) ++ tail
    ∧ match r with
      | Returned rv =>
          (tail = [] ∧ rv = ERROR_OK)
          ∨ (∃ blk, rv ≠ ERROR_OK ∧ tail = [EvSend blk rv])
          ∨ (∃ blk rc, rc ≠ ERROR_OK ∧ rv = 1
               ∧ tail = [EvSend blk ERROR_OK;
                         EvHandshake EICE_COMM_CTRL_WBIT 1000 rc])
          ∨ (∃ blk rc w, rc ≠ ERROR_OK ∧ rv = 1
               ∧ tail = [EvSend blk ERROR_OK;
                         EvHandshake EICE_COMM_CTRL_WBIT 1000 ERROR_OK;
                         EvReceive 1 rc w])
          ∨ (∃ blk w, w ≠ OCL_CMD_DONE
               ∧ rv = ERROR_FLASH_OPERATION_FAILED
               ∧ tail = [EvSend blk ERROR_OK;
                         EvHandshake EICE_COMM_CTRL_WBIT 1000 ERROR_OK;
                         EvReceive 1 ERROR_OK w])
      | Faulted _ | OutOfFuel => tail = []
      end.
Proof.
  revert staging payload offset count tr.
  induction fuel as [|fuel IH]; intros staging payload offset count tr Hx.
  { cbn in Hx. exec_inv Hx. subst. by exists [], []. }
  destruct (Z.eqb_spec count 0) as [->|Hnz].
  { cbn in Hx. exec_inv Hx. subst. exists [], []. split; [done|].
    left. eauto. }
  destruct (fill_block ocl staging payload offset
              (chunk_runlen ocl offset count)) as [st|f] eqn:Hfill.
  2:{ cbn [write_loop] in Hx.
      rewrite (proj2 (Z.eqb_neq _ _) Hnz), Hfill in Hx.
      exec_inv Hx. subst. by exists [], []. }
  destruct (write_loop_step _ _ _ _ _ _ _ _ _ Hnz Hfill Hx)
    as [(rc & ? & -> & ->)|[(rc & ? & -> & ->)|[(rc & w & ? & -> & ->)
        |[(w & ? & -> & ->)|(tr' & -> & Hrest)]]]].
  - eexists [], _. split; [done|]. right. left. eauto.
  - eexists [], _. split; [done|]. right. right. left. eauto.
  - eexists [], _. split; [done|]. do 3 right. left. eauto 6.
  - eexists [], _. split; [done|]. do 4 right. eauto 6.
  - apply IH in Hrest as (blks & tail & -> & Hr).
    exists (block st :: blks), tail. split; [|done].
    cbn [mbind list_bind]. by rewrite <- app_assoc.
Qed.

(** X7. Stop at the first failure: every run of [ocl_write] consists of a
    number of acknowledged chunks (block sent, handshake on the write bit
    with the 1 s timeout, response [OCL_CMD_DONE]) followed by at most
    one chunk that failed, at which the function returns.  A failed send
    returns the code of the send; a failed handshake or receive returns 1;
    a response other than [OCL_CMD_DONE] returns
    [ERROR_FLASH_OPERATION_FAILED].  The two precondition errors come
    without any request, and [ERROR_OK] only when every chunk of the run
    was acknowledged. *)
Theorem write_stops_at_first_failure (fuel : nat) (bank : flash_bank)
    (payload : list byte) (offset count : Z) (tr : list event)
    (r : outcome) :
  exec (ocl_write fuel bank payload offset count) tr r →
  ∃ blks tail,
    tr = (blks ≫= chunk_events) ++ tail
    ∧ match r with
      | Returned rv =>
          (tail = []
           ∧ (rv = ERROR_OK
              ∨ blks = []
                ∧ (rv = ERROR_FLASH_BANK_NOT_PROBED
                   ∨ rv = ERROR_TARGET_NOT_RUNNING)))
          ∨ (∃ blk, rv ≠ ERROR_OK ∧ tail = [EvSend blk rv])
          ∨ (∃ blk rc, rc ≠ ERROR_OK ∧ rv = 1
               ∧ tail = [EvSend blk ERROR_OK;
                         EvHandshake EICE_COMM_CTRL_WBIT 1000 rc])
          ∨ (∃ blk rc w, rc ≠ ERROR_OK ∧ rv = 1
               ∧ tail = [EvSend blk ERROR_OK;
                         EvHandshake EICE_COMM_CTRL_WBIT 1000 ERROR_OK;
                         EvReceive 1 rc w])
          ∨ (∃ blk w, w ≠ OCL_CMD_DONE
               ∧ rv = ERROR_FLASH_OPERATION_FAILED
               ∧ tail = [EvSend blk ERROR_OK;
                         EvHandshake EICE_COMM_CTRL_WBIT 1000 ERROR_OK;
                         EvReceive 1 ERROR_OK w])
      | Faulted _ | OutOfFuel => tail = []
      end.
Proof.
  unfold ocl_write.
  destruct (_ || _).
  { intros Hx. exec_inv Hx. subst. exists [], []. split; [done|].
    left. eauto. }
  destruct (negb _).
  { intros Hx. exec_inv Hx. subst. exists [], []. split; [done|].
    left. eauto. }
  intros Hx. apply write_loop_runs in Hx as (blks & tail & -> & Hr).
  exists blks, tail. split; [done|].
  destruct r as [rv| |]; [|done..].
  destruct Hr as [[-> ->]|Hr]; [left; eauto|by right].
Qed.

(** X8. Headers and sizes: in a run of [ocl_write] in which no access
    leaves the staging buffer or the payload, whatever the buffer values
    of the bank and however the run ends otherwise, the packets sent are
    blocks of the first chunks of the loop, in order: packet number [k]
    holds in its first word the flash-block command combined with the
    length of chunk [k] and in its second word the start of that chunk,
    and it has at least 3 words and at most the [buflen / 4 + 3] words
    allocated for the staging buffer.  A run that ends in a fault is left
    out: there the C program goes on past the allocation. *)
Theorem write_announces_chunks (fuel : nat) (bank : flash_bank)
    (payload : list byte) (offset count : Z) (tr : list event)
    (r : outcome) :
  let ocl := driver_priv bank in
  exec (ocl_write fuel bank payload offset count) tr r →
  (∀ f, r ≠ Faulted f) →
  Forall2
    (λ c blk,
       blk !! 0%nat = Some (to_u32 (Z.lor OCL_FLASH_BLOCK c.2))
       ∧ blk !! 1%nat = Some c.1
       ∧ (3 ≤ length blk ≤ Z.to_nat (buflen ocl / 4 + 3))%nat)
    (take (length (sends tr)) (chunks fuel ocl offset count)) (sends tr).
Proof.
  intros ocl Hx _.
  destruct (ocl_write_cases fuel bank payload offset count) as [[rv Hc]|Hc];
    rewrite Hc in Hx.
  { exec_inv Hx. subst. cbn. constructor. }
  fold ocl in Hx. clear Hc.
  assert (length (replicate (Z.to_nat (buflen ocl / 4 + 3)) uninit_word)
          = Z.to_nat (buflen ocl / 4 + 3)) as Hlen by apply length_replicate.
  revert Hlen Hx.
  generalize (replicate (Z.to_nat (buflen ocl / 4 + 3)) uninit_word).
  generalize (Z.to_nat (buflen ocl / 4 + 3)). generalize ocl.
  clear ocl bank. intros ocl cap staging. revert payload offset count tr staging.
  induction fuel as [|fuel IH];
    intros payload offset count tr staging Hlen Hx.
  { cbn in Hx. exec_inv Hx. subst. constructor. }
  destruct (Z.eqb_spec count 0) as [->|Hnz].
  { cbn in Hx. exec_inv Hx. subst. cbn. constructor. }
  destruct (fill_block ocl staging payload offset
              (chunk_runlen ocl offset count)) as [st|f] eqn:Hfill.
  2:{ cbn [write_loop] in Hx.
      rewrite (proj2 (Z.eqb_neq _ _) Hnz), Hfill in Hx.
      exec_inv Hx. subst. constructor. }
  destruct (fill_block_frame _ _ _ _ _ _ Hfill) as (Hl & Hptr & Hw0 & Hw1).
  assert (block st !! 0%nat
            = Some (to_u32 (Z.lor OCL_FLASH_BLOCK
                              (chunk_runlen ocl offset count)))
          ∧ block st !! 1%nat = Some offset
          ∧ (3 ≤ length (block st) ≤ cap)%nat) as Hblk.
  { rewrite !block_header, length_block by lia. repeat split; (done || lia). }
  cbn [chunks]. rewrite (proj2 (Z.eqb_neq _ _) Hnz).
  destruct (write_loop_step _ _ _ _ _ _ _ _ _ Hnz Hfill Hx)
    as [(rc & ? & -> & ->)|[(rc & ? & -> & ->)|[(rc & w & ? & -> & ->)
        |[(w & ? & -> & ->)|(tr' & -> & Hrest)]]]].
  1-4: cbn; constructor; [done|constructor].
  rewrite sends_app. cbn [chunk_events sends omap app length take].
  constructor; [done|].
  apply IH in Hrest; [done|]. by rewrite length_insert, Hl.
Qed.

End WriteRuns.

Section WritePrefix.
Context `{ocl_env}.

(** A run of the loop that returns [ERROR_OK] has sent one block for
    every chunk. *)
Lemma write_loop_complete (ocl : ocl_priv) (fuel : nat) (staging : list Z)
    (payload : list byte) (offset count : Z) (tr : list event) :
  exec (write_loop fuel ocl staging payload offset count) tr
    (Returned ERROR_OK) →
  length (sends tr) = length (chunks fuel ocl offset count).
Proof.
  pose proof one_not_OK. pose proof failed_not_OK.
  revert staging payload offset count tr.
  induction fuel as [|fuel IH]; intros staging payload offset count tr Hx.
  { cbn in Hx. by exec_inv Hx. }
  cbn [chunks]. destruct (Z.eqb_spec count 0) as [->|Hnz].
  { cbn in Hx. exec_inv Hx. by subst. }
  destruct (fill_block ocl staging payload offset
              (chunk_runlen ocl offset count)) as [st|f] eqn:Hfill.
  2:{ cbn [write_loop] in Hx.
      rewrite (proj2 (Z.eqb_neq _ _) Hnz), Hfill in Hx. by exec_inv Hx. }
  destruct (write_loop_step _ _ _ _ _ _ _ _ _ Hnz Hfill Hx)
    as [(rc & ? & ? & ?)|[(rc & ? & ? & ?)|[(rc & w & ? & ? & ?)
        |[(w & ? & ? & ?)|(tr' & Htr & Hrest)]]]]; try congruence.
  subst tr.
  apply IH in Hrest. by rewrite sends_app, length_app, Hrest.
Qed.

(** The blocks sent in any run of the loop, on a range that fits the
    32-bit offset space. *)
Lemma write_loop_prefix (ocl : ocl_priv) :
  0 < bufalign ocl ≤ buflen ocl → buflen ocl mod 4 = 0 →
  buflen ocl < 2 ^ 31 →
  ∀ (fuel : nat) (staging : list Z) (payload : list byte) (offset count : Z)
    tr r,
  Z.of_nat (length staging) = buflen ocl / 4 + 3 →
  0 ≤ offset → 0 ≤ count → offset + count ≤ 2 ^ 32 →
  count + offset mod bufalign ocl < 2 ^ 32 →
  (Z.to_nat count ≤ length payload)%nat →
  exec (write_loop fuel ocl staging payload offset count) tr r →
  Forall2 (carries ocl payload offset)
    (take (length (sends tr)) (chunks fuel ocl offset count)) (sends tr).
Proof.
  intros Hal H4 Hbl. induction fuel as [|fuel IH];
    intros staging payload offset count tr r Hlen Ho Hc Hfit Hnw Hpay Hx.
  { cbn in Hx. exec_inv Hx. subst. constructor. }
  cbn [chunks]. destruct (Z.eqb_spec count 0) as [->|Hnz].
  { cbn in Hx. exec_inv Hx. subst. constructor. }
  destruct (chunk_runlen_exact ocl offset count) as [Hr Hpos];
    [done|done|lia|done|].
  pose proof (Z.mod_pos_bound offset (bufalign ocl)) as Hm.
  pose proof (Z.mod_pos_bound (offset mod bufalign ocl) 4 eq_refl) as Hm4.
  assert ((offset mod bufalign ocl) mod 4 ≤ offset mod bufalign ocl) as Hm4'.
  { apply Z.mod_le; lia. }
  destruct (fill_block_spec ocl staging
              (take (Z.to_nat (chunk_runlen ocl offset count)) payload)
              (drop (Z.to_nat (chunk_runlen ocl offset count)) payload)
              offset (chunk_runlen ocl offset count))
    as (st & ws & Hfill & Hblk & Hrest & Hlen' & Hun).
  { rewrite length_take. lia. }
  { rewrite length_take. Z.div_mod_to_equations. lia. }
  rewrite take_drop in Hfill.
  pose proof (write_loop_step _ _ _ _ _ _ _ _ _ Hnz Hfill Hx) as Hstep.
  set (n := chunk_runlen ocl offset count) in *. clearbody n.
  assert (carries ocl payload offset (offset, n) (block st)) as Hfirst.
  { split; [cbn; lia|]. exists ws. cbn [fst snd]. split; [done|].
    rewrite Z.sub_diag. change (Z.to_nat 0) with 0%nat. rewrite drop_0.
    rewrite <- (unpack_data (offset mod bufalign ocl) ws
                  (map u8 (take (Z.to_nat n) payload)) _ Hun).
    f_equal. rewrite length_map, length_take. lia. }
  destruct Hstep
    as [(rc & ? & -> & ->)|[(rc & ? & -> & ->)|[(rc & w & ? & -> & ->)
        |[(w & ? & -> & ->)|(tr' & -> & Hnext)]]]].
  1-4: cbn; constructor; [done|constructor].
  rewrite sends_app. cbn [chunk_events sends omap app length take].
  constructor; [done|].
  assert (to_u32 (count - n) = count - n) as Hc'.
  { apply to_u32_small. unfold u32. lia. }
  destruct (Z.eq_dec n count) as [Hall|Hpart].
  - assert (count - n = 0) as Hz by lia.
    rewrite Hc', Hz in Hnext |- *.
    rewrite chunks_done. destruct fuel.
    + cbn in Hnext. exec_inv Hnext. subst. constructor.
    + cbn in Hnext. exec_inv Hnext. subst. constructor.
  - assert (to_u32 (offset + n) = offset + n) as Ho'.
    { apply to_u32_small. unfold u32. lia. }
    rewrite Hc', Ho' in Hnext |- *.
    apply IH in Hnext.
    + eapply Forall2_impl; [|exact Hnext].
      intros [s m] blk (Hs & ws' & Hb' & Hu'). cbn [fst snd] in *.
      unfold carries. cbn [fst snd]. split; [lia|]. exists ws'.
      split; [done|].
      rewrite Hu', Hrest, drop_drop. do 3 f_equal. lia.
    + by rewrite length_insert, Hlen'.
    + lia.
    + lia.
    + lia.
    + pose proof (Z.mod_pos_bound (offset + n) (bufalign ocl)). lia.
    + rewrite Hrest, length_drop. lia.
Qed.

(** X9. A failed write has written a prefix: for probed buffer values
    and a range that fits the 32-bit offset space, the blocks sent in any
    run of [ocl_write], however it ends, carry the bytes of the first
    chunks of the range, in order and without a gap; and a run on a
    running target that returns [ERROR_OK] has sent the block of every
    chunk. *)
Theorem write_sends_prefix (fuel : nat) (bank : flash_bank)
    (payload : list byte) (X L : Z) (tr : list event) (r : outcome) :
  let ocl := driver_priv bank in
  let BL := buflen ocl in
  let BA := bufalign ocl in
  0 < BA → BA ≤ BL → BL mod 4 = 0 → BL < 2 ^ 31 →
  0 ≤ X → 0 ≤ L → X + L ≤ 2 ^ 32 → L + X mod BA < 2 ^ 32 →
  (Z.to_nat L ≤ length payload)%nat →
  exec (ocl_write fuel bank payload X L) tr r →
  Forall2 (carries ocl payload X)
    (take (length (sends tr)) (chunks fuel ocl X L)) (sends tr)
  ∧ (target_state bank = TARGET_RUNNING → r = Returned ERROR_OK →
     length (sends tr) = length (chunks fuel ocl X L)).
Proof.
  intros ocl BL BA Hba Hle H4 Hbl HX HL Hfit Hnw Hpay Hx.
  subst ocl BL BA. split.
  - destruct (ocl_write_cases fuel bank payload X L) as [[rv Hc]|Hc];
      rewrite Hc in Hx.
    { exec_inv Hx. subst. constructor. }
    eapply write_loop_prefix; try done.
    rewrite length_replicate. Z.div_mod_to_equations. lia.
  - intros Hrun ->.
    rewrite ocl_write_probed_running in Hx by (done || lia).
    by apply write_loop_complete in Hx.
Qed.

End WritePrefix.

Section WriteFuel.
Context `{ocl_env}.




End WriteFuel.

(** * Examples

    The theorems at concrete inputs, in the sample environment, and the
    inputs at which the statements of the design document fail. *)

Section Examples.
#[local] Existing Instance sample_env.

Ltac arith :=
  first [ by vm_compute
        | by (vm_compute; split)
        | cbn; lia
        | vm_compute; lia ].

Ltac run_exec :=
  vm_compute;
  repeat (first [ apply exec_ret | apply exec_send | apply exec_handshake
                | apply exec_receive ]; vm_compute).

Example fresh_bank_configured :
  ocl_flash_bank_command 6 0
    {| base := 0; size := 0; num_sectors := 0; sectors := [];
       target_state := 1;
       driver_priv := {| buflen := 77; bufalign := 0 |} |}
  = (ERROR_OK, fresh_bank).
Proof. reflexivity. Qed.

(** Five bytes written at offset 0x1001 through a buffer of 8 bytes
    aligned to 4. *)
Lemma packing_round_trip_witness :
  ∃ st,
    fill_block {| buflen := 8; bufalign := 4 |} (replicate 5 0)
      ([x01; x02; x03; x04; x05] ++ []) 0x1001 5 = Ok st
    ∧ unpack 1 5 (payload_words (block st)) = [1; 2; 3; 4; 5].
Proof.
  destruct (packing_round_trip {| buflen := 8; bufalign := 4 |}
              (replicate 5 0) [x01; x02; x03; x04; x05] [] 0x1001)
    as (st & Hfill & Hun & _).
  { arith. }
  exists st. split; [exact Hfill|exact Hun].
Defined.

Lemma checksum_word_witness :
  ∃ ws k,
    write_loop 1 {| buflen := 8; bufalign := 4 |} (replicate 5 0)
      [x01; x02; x03; x04; x05] 0x1001 5
    = Send ([0x0CFB0005; 0x1001] ++ ws ++ [xor_checksum ws]) k
    ∧ Z.of_nat (length ws) = 2.
Proof.
  destruct (checksum_word 0 {| buflen := 8; bufalign := 4 |} (replicate 5 0)
              [x01; x02; x03; x04; x05] 0x1001 5)
    as (ws & k & Hsend & _ & Hlen).
  { discriminate. }
  { arith. }
  { arith. }
  exists ws, k. split; [exact Hsend|exact Hlen].
Defined.

(** The scenario of the design document: six bytes at offset 0x0FFE with a
    buffer of 0x1000 bytes aligned to 0x1000 go out as a chunk of two bytes
    and a chunk of four. *)
Lemma chunk_sizing_witness :
  let bank := set_driver_priv {| buflen := 0x1000; bufalign := 0x1000 |}
                fresh_bank in
  chunks 7 (driver_priv bank) 0x0FFE 6 = [(0x0FFE, 2); (0x1000, 4)]
  ∧ covers 0x0FFE (0x0FFE + 6) (chunks 7 (driver_priv bank) 0x0FFE 6).
Proof.
  intros bank. split; [reflexivity|].
  apply (chunk_sizing 7 bank [x01; x02; x03; x04; x05; x06] 0x0FFE 6).
  - arith.
  - exists 1. reflexivity.
  - arith.
  - arith.
  - arith.
  - arith.
  - arith.
  - arith.
  - arith.
Defined.

(** A payload of 2^32 - 1 bytes at offset 1: the 32-bit sum of the length
    test wraps to 0, the whole count is taken as one chunk, and as an [int]
    this length is -1.  And four bytes at offset 2^32 - 2: the range leaves
    the 32-bit offset space and the second chunk starts at offset 0. *)
Lemma chunk_sizing_counterexample :
  let ocl := {| buflen := 0x1000; bufalign := 0x1000 |} in
  (bufalign ocl | buflen ocl) ∧ bufalign ocl ≤ buflen ocl
  ∧ chunks 2 ocl 1 0xFFFFFFFF = [(1, -1)]
  ∧ chunk_runlen ocl 1 0xFFFFFFFF
    ≠ Z.min 0xFFFFFFFF (buflen ocl - 1 mod bufalign ocl)
  ∧ ¬ covers 1 (1 + 0xFFFFFFFF) (chunks 2 ocl 1 0xFFFFFFFF)
  ∧ chunks 3 ocl 0xFFFFFFFE 4 = [(0xFFFFFFFE, 2); (0, 2)]
  ∧ ¬ covers 0xFFFFFFFE (0xFFFFFFFE + 4) (chunks 3 ocl 0xFFFFFFFE 4).
Proof.
  intros ocl. split; [by exists 1|]. split; [by cbn|].
  split; [reflexivity|]. split; [by vm_compute|].
  split; [|split; [reflexivity|]].
  - vm_compute. intros (_ & Hpos & _). discriminate Hpos.
  - vm_compute. intros (_ & _ & Hnext & _). discriminate Hnext.
Qed.

Lemma staging_stores_in_bounds_witness :
  Returned (-4) ≠ Faulted StagingOutOfBounds
  ∧ ∀ f, Returned (-4) ≠ Faulted f.
Proof.
  apply (staging_stores_in_bounds 1
           (set_driver_priv {| buflen := 8; bufalign := 4 |} fresh_bank)
           [x01; x02; x03; x04; x05] 0x1001 5
           [EvSend [0x0CFB0005; 0x1001; 0x030201FF; 0xFFFF0504; 1040042487]
              (-4)]).
  - discriminate.
  - reflexivity.
  - discriminate.
  - arith.
  - arith.
  - arith.
  - arith.
  - arith.
  - run_exec.
Defined.

(** A length of 2^32 - 1 at offset 1 with a buffer of 0x1000 bytes: the
    sum of the length test wraps to 0, the chunk length is -1, the block
    carries no byte of the payload, and the write returns [ERROR_OK]. *)
Lemma write_terminates_counterexample :
  let ocl := {| buflen := 0x1000; bufalign := 0x1000 |} in
  let bank := set_driver_priv ocl fresh_bank in
  0 < bufalign ocl ≤ buflen ocl
  ∧ chunk_runlen ocl 1 0xFFFFFFFF = -1
  ∧ ¬ 1 ≤ chunk_runlen ocl 1 0xFFFFFFFF
  ∧ exec (ocl_write 2 bank [] 1 0xFFFFFFFF)
      [EvSend [0xFFFFFFFF; 1; 0xFFFFFFFF; 0x3EFF32F3] 0;
       EvHandshake 1 1000 0; EvReceive 1 0 OCL_CMD_DONE]
      (Returned ERROR_OK).
Proof.
  intros ocl bank. split; [arith|]. split; [reflexivity|].
  split; [by vm_compute|]. run_exec.
Qed.

Lemma write_terminates_witness :
  ∃ tr r,
    exec (ocl_write 6
            (set_driver_priv {| buflen := 8; bufalign := 4 |} fresh_bank)
            [x01; x02; x03; x04; x05] 0x1001 5) tr r
    ∧ r ≠ OutOfFuel.
Proof.
  destruct (write_terminates
              (set_driver_priv {| buflen := 8; bufalign := 4 |} fresh_bank)
              [x01; x02; x03; x04; x05] 0x1001 5) as [_ Hfin].
  - arith.
  - arith.
  - arith.
  - destruct (Hfin 6%nat) as [(tr & r & Hx) Hno]; [arith|].
    exists tr, r. split; [exact Hx|exact (Hno tr r Hx)].
Defined.

(** A total size that is not a multiple of the sector count. *)
Lemma probe_rejects_geometry_witness :
  ∃ bank',
    exec (ocl_probe fresh_bank)
      (probe_dialogue (0, 0) 0 0x10001 16 0x01000100) (-900, bank').
Proof.
  destruct (probe_rejects_geometry fresh_bank (0, 0) 0 0x10001 16 0x01000100)
    as (bank' & Hx & _).
  { right. left. by vm_compute. }
  exists bank'. exact Hx.
Defined.

(** The scenario of the design document: erase(0, 15) on a bank of 16
    sectors sends the erase-all command. *)
Lemma erase_command_witness :
  ∃ k, ocl_erase (set_num_sectors 16 fresh_bank) 0 15
       = Send [OCL_ERASE_ALL] k.
Proof.
  destruct (erase_command (set_num_sectors 16 fresh_bank) 0 15) as [Hk _].
  - discriminate.
  - arith.
  - reflexivity.
  - arith.
  - arith.
  - exact Hk.
Defined.

Lemma precondition_checks_witness :
  ocl_auto_probe fresh_bank = -907
  ∧ ocl_erase fresh_bank 0 0 = Ret (-907).
Proof.
  destruct (precondition_checks fresh_bank) as (Hw & He & _).
  split.
  - apply Hw. left. reflexivity.
  - apply He. reflexivity.
Defined.

(** A probe rejected for a buffer length of zero leaves 16 sectors in the
    bank; the erase that follows does not look at the buffer geometry and
    goes through. *)
Lemma precondition_checks_counterexample :
  ∃ bank',
    exec (ocl_probe fresh_bank) (probe_dialogue (0, 0) 0 0x10000 16 0)
      (ERROR_FLASH_BANK_INVALID, bank')
    ∧ buflen (driver_priv bank') = 0
    ∧ exec (ocl_erase bank' 0 15)
        [EvSend [OCL_ERASE_ALL] 0; EvHandshake 1 1000 0;
         EvReceive 1 0 OCL_CMD_DONE] ERROR_OK
    ∧ ERROR_OK ≠ ERROR_FLASH_BANK_NOT_PROBED.
Proof.
  eexists. split; [|split; [|split]].
  - exact (probe_dialogue_run fresh_bank (0, 0) 0 0x10000 16 0).
  - reflexivity.
  - run_exec.
  - discriminate.
Qed.

(** A probe rejected because the total size is not a multiple of the
    sector count leaves the reported sector count, buffer length and
    alignment in the bank; the erase and the write that follow go
    through. *)
Lemma probe_failure_counterexample :
  ∃ bank' blk,
    exec (ocl_probe fresh_bank)
      (probe_dialogue (0, 0) 0 0x10001 16 0x01000100)
      (ERROR_FLASH_BANK_INVALID, bank')
    ∧ exec (ocl_erase bank' 0 15)
        [EvSend [OCL_ERASE_ALL] 0; EvHandshake 1 1000 0;
         EvReceive 1 0 OCL_CMD_DONE] ERROR_OK
    ∧ exec (ocl_write 2 bank' [x01] 0 1)
        [EvSend blk 0; EvHandshake 1 1000 0; EvReceive 1 0 OCL_CMD_DONE]
        (Returned ERROR_OK)
    ∧ ERROR_OK ≠ ERROR_FLASH_BANK_NOT_PROBED.
Proof.
  eexists. exists [0x0CFB0001; 0; 0xFFFFFF01; 1056911885].
  split; [|split; [|split]].
  - exact (probe_dialogue_run fresh_bank (0, 0) 0 0x10001 16 0x01000100).
  - run_exec.
  - run_exec.
  - discriminate.
Qed.

(** C7.  The claim fails on the code: a probe that the driver itself
    rejects leaves the bank probed.  The loader reports 16 sectors, a
    total size of 0x10000 and a buffer of 6 bytes; [ocl_probe] returns
    [ERROR_FLASH_BANK_INVALID] because 6 is not a multiple of 4, but the
    sector count, the buffer length and the alignment (0, read as 1) stay
    in the bank.  The auto-probe check then passes, an erase of the whole
    bank sends its command, and a write of 6 bytes stores its checksum
    word at index 4 of the 4 words of the staging buffer. *)
Theorem probe_failure_leaves_bank_probed :
  ∃ bank',
    exec (ocl_probe fresh_bank)
      (probe_dialogue (0, 0) 0 0x10000 16 0x00000006)
      (ERROR_FLASH_BANK_INVALID, bank')
    ∧ num_sectors bank' = 16
    ∧ driver_priv bank' = {| buflen := 6; bufalign := 1 |}
    ∧ ocl_auto_probe bank' = ERROR_OK
    ∧ ERROR_OK ≠ ERROR_FLASH_BANK_NOT_PROBED
    ∧ (∃ k, ocl_erase bank' 0 15 = Send [OCL_ERASE_ALL] k)
    ∧ length (replicate (Z.to_nat (buflen (driver_priv bank') / 4 + 3))
                uninit_word) = 4%nat
    ∧ ocl_write 2 bank' [x01; x02; x03; x04; x05; x06] 0 6
      = Ret (Faulted StagingOutOfBounds).
Proof.
  eexists. split.
  { exact (probe_dialogue_run fresh_bank (0, 0) 0 0x10000 16 0x00000006). }
  split; [reflexivity|]. split; [reflexivity|]. split; [reflexivity|].
  split; [discriminate|]. split; [eexists; reflexivity|].
  split; reflexivity.
Qed.

Lemma probe_failure_keeps_geometry_witness :
  num_sectors
    (probe_geometry (with_parameters fresh_bank 0 0x10001 16 0x01000100)).2
  = 16
  ∧ ∃ ws k,
      ocl_erase
        (probe_geometry
           (with_parameters fresh_bank 0 0x10001 16 0x01000100)).2 0 15
      = Send ws k.
Proof.
  destruct (probe_failure_keeps_geometry fresh_bank
              (probe_dialogue (0, 0) 0 0x10001 16 0x01000100) (-900)
              (probe_geometry
                 (with_parameters fresh_bank 0 0x10001 16 0x01000100)).2)
    as (Hn & _ & _ & Hgo & _).
  - exact (probe_dialogue_run fresh_bank (0, 0) 0 0x10001 16 0x01000100).
  - discriminate.
  - split; [exact Hn|]. apply Hgo; [discriminate|reflexivity].
Defined.


(** The dialogue of a successful probe, with two different stale
    words. *)
Lemma probe_ignores_stale_word_witness :
  ∃ r,
    exec (ocl_probe fresh_bank)
      (probe_dialogue (0, 0) 0x100000 0x100000 4 0x00040100) r
    ∧ exec (ocl_probe fresh_bank)
        (probe_dialogue (7, 9) 0x100000 0x100000 4 0x00040100) r.
Proof.
  pose proof (probe_dialogue_run fresh_bank (0, 0) 0x100000 0x100000 4
                0x00040100) as Hx.
  eexists. split; [exact Hx|].
  exact (probe_ignores_stale_word fresh_bank 0 0 7 9 _ _ Hx).
Defined.

(** A bank of 1 MiB in 4 sectors with a buffer of 256 bytes aligned
    to 4. *)
Lemma probe_accepts_geometry_witness :
  ∃ bank',
    exec (ocl_probe fresh_bank)
      (probe_dialogue (0, 0) 0x100000 0x100000 4 0x00040100)
      (ERROR_OK, bank')
    ∧ num_sectors bank' = 4
    ∧ driver_priv bank' = {| buflen := 256; bufalign := 4 |}.
Proof.
  destruct (probe_accepts_geometry fresh_bank (0, 0) 0x100000 0x100000 4
              0x00040100)
    as (bank' & Hx & _ & _ & Hn & Hp & _); [arith..|].
  exists bank'. split; [exact Hx|]. split; [exact Hn|exact Hp].
Defined.

Lemma probe_enables_write_witness :
  ∃ bank',
    exec (ocl_probe fresh_bank)
      (probe_dialogue (0, 0) 0x100000 0x100000 4 0x00040100)
      (ERROR_OK, bank')
    ∧ 0 < buflen (driver_priv bank') < 2 ^ 16
    ∧ ocl_auto_probe bank' = ERROR_OK.
Proof.
  pose proof (probe_dialogue_run fresh_bank (0, 0) 0x100000 0x100000 4
                0x00040100) as Hx.
  destruct (probe_geometry
              (with_parameters fresh_bank 0x100000 0x100000 4 0x00040100))
    as [rc bank'] eqn:Hg.
  assert (rc = ERROR_OK) as -> by (by vm_compute in Hg; injection Hg as <- _).
  destruct (probe_enables_write fresh_bank _ bank' Hx)
    as (Hbl & _ & _ & _ & _ & _ & Hauto & _).
  exists bank'. split; [exact Hx|]. split; [exact Hbl|exact Hauto].
Defined.


(** An erase of the whole bank whose command is not sent. *)
Lemma erase_results_witness :
  let bank := set_num_sectors 4 fresh_bank in
  exec (ocl_erase bank 0 3) [EvSend [OCL_ERASE_ALL] 5] 1
  ∧ ∃ pkt rc, rc ≠ ERROR_OK ∧ [EvSend [OCL_ERASE_ALL] 5] = [EvSend pkt rc].
Proof.
  intros bank.
  assert (exec (ocl_erase bank 0 3) [EvSend [OCL_ERASE_ALL] 5] 1) as Hx
    by run_exec.
  split; [exact Hx|].
  destruct (erase_results bank 0 3 _ _ Hx)
    as [[? _]|[(pkt & rc & ? & _ & ?)|[(? & ? & _ & _ & ?)
        |[(? & ? & ? & _ & _ & ?)|[(? & ? & _ & _ & ?)|(? & _ & ?)]]]]];
    try discriminate.
  by exists pkt, rc.
Defined.

Lemma write_stops_at_first_failure_witness :
  ∃ tr r,
    exec (ocl_write 6
            (set_driver_priv {| buflen := 8; bufalign := 4 |} fresh_bank)
            [x01; x02; x03; x04; x05] 0x1001 5) tr r
    ∧ ∃ blks tail, tr = (blks ≫= chunk_events) ++ tail.
Proof.
  destruct (exec_total
              (ocl_write 6
                 (set_driver_priv {| buflen := 8; bufalign := 4 |} fresh_bank)
                 [x01; x02; x03; x04; x05] 0x1001 5) 0 0) as (tr & r & Hx).
  destruct (write_stops_at_first_failure _ _ _ _ _ _ _ Hx)
    as (blks & tail & Htr & _).
  exists tr, r. split; [exact Hx|]. by exists blks, tail.
Defined.

(** A write of five bytes whose first block is not sent: the run ends
    with the code of the send. *)
Lemma write_announces_chunks_witness :
  let bank := set_driver_priv {| buflen := 8; bufalign := 4 |} fresh_bank in
  let tr :=
    [EvSend [0x0CFB0005; 0x1001; 0x030201FF; 0xFFFF0504; 1040042487] (-4)] in
  exec (ocl_write 6 bank [x01; x02; x03; x04; x05] 0x1001 5) tr
    (Returned (-4))
  ∧ Forall2
      (λ c blk,
         blk !! 0%nat = Some (to_u32 (Z.lor OCL_FLASH_BLOCK c.2))
         ∧ blk !! 1%nat = Some c.1
         ∧ (3 ≤ length blk ≤ Z.to_nat (buflen (driver_priv bank) / 4 + 3))%nat)
      (take (length (sends tr)) (chunks 6 (driver_priv bank) 0x1001 5))
      (sends tr).
Proof.
  intros bank tr.
  assert (exec (ocl_write 6 bank [x01; x02; x03; x04; x05] 0x1001 5) tr
            (Returned (-4))) as Hx by run_exec.
  split; [exact Hx|].
  apply (write_announces_chunks _ _ _ _ _ _ _ Hx). intros f. discriminate.
Defined.

Lemma write_sends_prefix_witness :
  let bank := set_driver_priv {| buflen := 8; bufalign := 4 |} fresh_bank in
  ∃ tr r,
    exec (ocl_write 6 bank [x01; x02; x03; x04; x05] 0x1001 5) tr r
    ∧ Forall2 (carries (driver_priv bank) [x01; x02; x03; x04; x05] 0x1001)
        (take (length (sends tr)) (chunks 6 (driver_priv bank) 0x1001 5))
        (sends tr).
Proof.
  intros bank.
  destruct (exec_total
              (ocl_write 6 bank [x01; x02; x03; x04; x05] 0x1001 5) 0 0)
    as (tr & r & Hx).
  exists tr, r. split; [exact Hx|].
  apply (write_sends_prefix 6 bank [x01; x02; x03; x04; x05] 0x1001 5 tr r);
    first [exact Hx | arith].
Defined.


End Examples.

(** * Properties of the FreeBSD GPIO driver *)

Ltac io_run :=
  unfold mbind, mret, Gpio.io_bind, Gpio.io_ret, Gpio.get, Gpio.put,
    Gpio.emit;
  cbn -[Z.geb Z.ltb Z.eqb].

Ltac store_simpl :=
  repeat first [ rewrite fn_lookup_insert
               | rewrite fn_lookup_insert_ne by done ].

Lemma c_not_differs (x : Z) : (x =? Gpio.c_not x) = false.
Proof.
  unfold Gpio.c_not. destruct (Z.eqb_spec x 0) as [->|]; [done|]. lia.
Qed.

Ltac io_cases :=
  repeat (io_run; store_simpl; rewrite ?c_not_differs;
          cbn [negb orb andb];
          try match goal with
              | |- context [(if ?b then _ else _) _] => destruct b
              end).

Section GpioProps.
Import Gpio.
Context `{gpio_env}.

Lemma configure_fails (x_handle x_gpio : global) (o i : Z) (s : globals) :
  (s x_gpio >=? 0) = true →
  configure x_handle x_gpio o i s
  = (true, <[x_handle := -1]> s,
     calls (setup_gpio (s x_handle) (s x_gpio) o i s)).
Proof.
  intros Hg. unfold configure, setup_gpio, calls. io_run. rewrite Hg.
  destruct (negb (o =? 0)); [destruct (negb (i =? 0))|]; io_run;
    rewrite fn_lookup_insert; done.
Qed.

Lemma configure_skips (x_handle x_gpio : global) (o i : Z) (s : globals) :
  (s x_gpio >=? 0) = false →
  configure x_handle x_gpio o i s = (false, s, []).
Proof. intros Hg. unfold configure. io_run. by rewrite Hg. Qed.

Lemma put_then {A} (g : global) (v : Z) (k : io A) (s : globals) :
  (put g v;; k) s = k (<[g:=v]> s).
Proof.
  unfold mbind, io_bind, put. by destruct (k _) as [[? ?] ?].
Qed.

(** What [freebsdgpio_init] does, by the first configured pin. *)
Lemma init_runs (gpioc : Z) (s : globals) :
  let s0 := <[bitbang_interface := freebsdgpio_bitbang]> s in
  freebsdgpio_init gpioc s
  = if negb (freebsdgpio_jtag_mode_possible s
             || freebsdgpio_swd_mode_possible s)
    then (ERROR_JTAG_INIT_FAILED, s0, [])
    else
      match first_configured s with
      | Some (x_handle, x_gpio, is_output, init_high) =>
          (ERROR_JTAG_INIT_FAILED, <[x_handle := -1]> (opened gpioc s0),
           gpio_open 0
             :: calls (setup_gpio gpioc (s x_gpio) is_output init_high s))
      | None =>
          (ERROR_OK, opened gpioc s0,
           gpio_open 0
             :: (if freebsdgpio_swd_mode_possible s
                 then [bitbang_swd_switch_seq
                         (if negb (s swd_mode =? 0) then JTAG_TO_SWD
                          else SWD_TO_JTAG)]
                 else []))
      end.
Proof.
  intros s0. unfold freebsdgpio_init. rewrite put_then. fold s0.
  cbn beta.
  change (freebsdgpio_jtag_mode_possible s0)
    with (freebsdgpio_jtag_mode_possible s).
  change (freebsdgpio_swd_mode_possible s0)
    with (freebsdgpio_swd_mode_possible s).
  destruct (negb _); [done|].
  unfold first_configured, pin_setup, find. cbn [fst snd].
  unfold mbind at 1 2 3 4 5 6 7 8 9. unfold io_bind at 1 2 3 4 5 6 7 8 9.
  unfold put, emit. cbn [app].
  change (<[swdio_handle:=gpioc]> _) with (opened gpioc s0).
  repeat
    (unfold mbind at 1; unfold io_bind at 1;
     match goal with
     | |- context [configure ?h ?g ?o ?i (opened gpioc s0)] =>
         destruct (s g >=? 0) eqn:?;
         [ rewrite (configure_fails h g o i) by done;
           reflexivity
         | rewrite (configure_skips h g o i) by done; cbn [app] ]
     end).
  unfold mbind, io_bind, mret, io_ret, get, emit. cbn beta iota.
  change (freebsdgpio_swd_mode_possible (opened gpioc s0))
    with (freebsdgpio_swd_mode_possible s).
  destruct (freebsdgpio_swd_mode_possible s); [|done].
  change (opened gpioc s0 swd_mode) with (s swd_mode).
  by destruct (negb (s swd_mode =? 0)).
Qed.

Lemma mode_possible_configured (s : globals) :
  freebsdgpio_jtag_mode_possible s || freebsdgpio_swd_mode_possible s = true →
  first_configured s ≠ None
  ∧ (freebsdgpio_jtag_mode_possible s = true →
     first_configured s = Some (tck_handle, tck_gpio, 1, 0)).
Proof.
  unfold freebsdgpio_jtag_mode_possible, freebsdgpio_swd_mode_possible,
    is_gpio_valid, first_configured, pin_setup, find.
  cbn [fst snd].
  destruct (s tck_gpio >=? 0); cbn; [done|].
  destruct (s tms_gpio >=? 0); [done|].
  destruct (s tdi_gpio >=? 0); [done|].
  destruct (s tdo_gpio >=? 0); [done|].
  destruct (s trst_gpio >=? 0); [done|].
  destruct (s srst_gpio >=? 0); [done|].
  destruct (s swclk_gpio >=? 0); cbn; [done|]. done.
Qed.

Lemma first_configured_pin (s : globals) (p : global * global * Z * Z) :
  first_configured s = Some p → p ∈ pin_setup ∧ 0 ≤ s p.1.1.2.
Proof.
  intros Hf. apply find_some in Hf as [Hin Hp].
  split; [by apply list_elem_of_In|lia].
Qed.

(** X10. [freebsdgpio_init] never succeeds: whatever pins are configured
    and whatever [gpio_open] returns, the result is
    [ERROR_JTAG_INIT_FAILED], since [setup_gpio] returns -1 for every pin.
    It makes at most three calls and never starts a JTAG/SWD switch
    sequence.  It always leaves the address of its table of operations in
    [bitbang_interface]; when neither mode is possible it makes no call
    and that assignment is its only effect. *)
Theorem init_never_succeeds (gpioc : Z) (s : globals) :
  let r := freebsdgpio_init gpioc s in
  result r = ERROR_JTAG_INIT_FAILED
  ∧ (length (calls r) ≤ 3)%nat
  ∧ (∀ seq, bitbang_swd_switch_seq seq ∉ calls r)
  ∧ final r bitbang_interface = freebsdgpio_bitbang
  ∧ (freebsdgpio_jtag_mode_possible s = false →
     freebsdgpio_swd_mode_possible s = false →
     calls r = []
     ∧ final r = <[bitbang_interface := freebsdgpio_bitbang]> s).
Proof.
  cbv zeta. rewrite init_runs.
  destruct (freebsdgpio_jtag_mode_possible s
            || freebsdgpio_swd_mode_possible s) eqn:Hmode; cbn [negb].
  2:{ unfold result, calls, final. cbn [fst snd length].
      split; [done|]. split; [lia|]. split.
      { intros seq Hin. by apply elem_of_nil in Hin. }
      split; [by rewrite fn_lookup_insert|done]. }
  destruct (mode_possible_configured s Hmode) as [Hsome _].
  destruct (first_configured s) as [[[[h g] o] i]|] eqn:Hf; [|done].
  unfold result, calls, final, setup_gpio. io_run.
  split; [done|]. split.
  { destruct (negb (o =? 0)); [destruct (negb (i =? 0))|]; cbn; lia. }
  split.
  { intros seq Hin.
    destruct (negb (o =? 0)); [destruct (negb (i =? 0))|]; cbn in Hin;
      repeat (apply elem_of_cons in Hin as [Hin|Hin]; [done|]);
      by apply elem_of_nil in Hin. }
  split.
  { apply first_configured_pin in Hf as [Hin _]. revert Hin.
    unfold pin_setup. rewrite !elem_of_cons, elem_of_nil.
    intros [Hp|[Hp|[Hp|[Hp|[Hp|[Hp|[Hp|[Hp|[]]]]]]]]];
      injection Hp as -> -> -> ->; reflexivity. }
  intros Hj Hw. by rewrite Hj, Hw in Hmode.
Qed.

(** X11. [freebsdgpio_init] stops at the first configured pin: when a
    mode is possible, it stores the address of its table of operations
    in [bitbang_interface], opens unit 0, assigns the handle to all eight
    handle variables, configures the first pin whose number is not
    negative, in the order TCK, TMS, TDI, TDO, TRST, SRST, SWCLK, SWDIO,
    and fails there, with -1 left in the handle of that pin; no other
    pin is configured and no other variable changes.  When JTAG mode is
    possible that pin is TCK. *)
Theorem init_configures_first_pin (gpioc : Z) (s : globals) :
  let r := freebsdgpio_init gpioc s in
  freebsdgpio_jtag_mode_possible s || freebsdgpio_swd_mode_possible s = true →
  ∃ x_handle x_gpio is_output init_high,
    first_configured s = Some (x_handle, x_gpio, is_output, init_high)
    ∧ calls r
      = gpio_open 0
          :: (if negb (is_output =? 0)
              then gpio_pin_output gpioc (s x_gpio)
                     :: (if negb (init_high =? 0)
                         then [gpio_pin_high gpioc (s x_gpio)] else [])
              else [gpio_pin_input gpioc (s x_gpio)])
    ∧ (∀ g, final r g
            = if bool_decide (g = x_handle) then -1
              else if bool_decide (g ∈ handles) then gpioc
              else if bool_decide (g = bitbang_interface)
                   then freebsdgpio_bitbang
              else s g)
    ∧ (freebsdgpio_jtag_mode_possible s = true →
       calls r = [gpio_open 0; gpio_pin_output gpioc (s tck_gpio)]
       ∧ final r tck_handle = -1).
Proof.
  cbv zeta. intros Hmode. rewrite init_runs, Hmode. cbn [negb].
  destruct (mode_possible_configured s Hmode) as [Hsome Hj].
  destruct (first_configured s) as [[[[h g] o] i]|] eqn:Hf; [|done].
  exists h, g, o, i. split; [done|].
  unfold calls, final, setup_gpio. io_run. split.
  { destruct (negb (o =? 0)); [destruct (negb (i =? 0))|]; done. }
  split.
  - apply first_configured_pin in Hf as [Hin _]. revert Hin.
    unfold pin_setup. rewrite !elem_of_cons, elem_of_nil.
    intros [Hp|[Hp|[Hp|[Hp|[Hp|[Hp|[Hp|[Hp|[]]]]]]]]];
      injection Hp as -> -> -> ->; intros []; reflexivity.
  - intros Hjtag. apply Hj in Hjtag. injection Hjtag as -> -> -> ->.
    done.
Qed.

(** ** The line caches *)

(** A call of [freebsdgpio_write] in JTAG mode. *)
Lemma write_jtag_run (tck tms tdi : Z) (s : globals) :
  s swd_mode = 0 →
  let fresh := s first_time =? 0 in
  freebsdgpio_write tck tms tdi s
  = (ERROR_OK,
     <[last_tck:=tck]>
       (<[last_tms:=tms]>
          (<[last_tdi:=tdi]>
             (if fresh
              then <[first_time:=1]>
                     (<[last_tdi:=c_not tdi]>
                        (<[last_tms:=c_not tms]>
                           (<[last_tck:=c_not tck]> s)))
              else s))),
     (if fresh || negb (tdi =? s last_tdi)
      then [drives (s tdi_handle) tdi] else [])
     ++ (if fresh || negb (tms =? s last_tms)
         then [drives (s tms_handle) tms] else [])
     ++ (if fresh || negb (tck =? s last_tck)
         then [drives (s tck_handle) tck] else [])).
Proof.
  intros Hmode fresh. subst fresh. unfold freebsdgpio_write, drives.
  io_run. rewrite Hmode. cbn [Z.eqb negb].
  destruct (s first_time =? 0); cbn [orb]; io_cases; done.
Qed.

(** A call of [freebsdgpio_swdio_write]. *)
Lemma swdio_write_run (swclk swdio : Z) (s : globals) :
  freebsdgpio_swdio_write swclk swdio s
  = (tt,
     <[last_stored:=1]> (<[last_swclk:=swclk]> (<[last_swdio:=swdio]> s)),
     (if (s swdio_input =? 0)
         && ((s last_stored =? 0) || negb (swdio =? s last_swdio))
      then [drives (s swdio_handle) swdio] else [])
     ++ (if (s last_stored =? 0) || negb (swclk =? s last_swclk)
         then [drives (s swclk_handle) swclk] else [])).
Proof.
  unfold freebsdgpio_swdio_write, drives. io_run.
  destruct (s swdio_input =? 0), (s last_stored =? 0); cbn [orb andb];
    io_cases; done.
Qed.

(** X12. The first call of [freebsdgpio_write] in JTAG mode writes all
    three lines, whatever their levels and whatever the caches hold:
    TDI, then TMS, then TCK, each with the level passed where libgpio
    takes the pin number.  It returns [ERROR_OK] and leaves the three
    levels in the caches. *)
Theorem write_first_call (tck tms tdi : Z) (s : globals) :
  let r := freebsdgpio_write tck tms tdi s in
  s swd_mode = 0 → s first_time = 0 →
  result r = ERROR_OK
  ∧ calls r = [drives (s tdi_handle) tdi; drives (s tms_handle) tms;
               drives (s tck_handle) tck]
  ∧ final r first_time = 1
  ∧ final r last_tdi = tdi ∧ final r last_tms = tms
  ∧ final r last_tck = tck.
Proof.
  cbv zeta. intros Hmode Hfirst.
  rewrite write_jtag_run, Hfirst by done. done.
Qed.

(** X13. The cache of [freebsdgpio_write] in JTAG mode: after one call,
    whatever the variables held before it, the next call writes exactly
    the lines whose level differs from the one of the call before, in the
    order TDI, TMS, TCK; a call with the same levels makes no call of
    libgpio at all. *)
Theorem write_after_write (tck tms tdi tck' tms' tdi' : Z) (s : globals) :
  let s1 := final (freebsdgpio_write tck tms tdi s) in
  let r := freebsdgpio_write tck' tms' tdi' s1 in
  s swd_mode = 0 →
  result r = ERROR_OK
  ∧ calls r
    = (if tdi' =? tdi then [] else [drives (s tdi_handle) tdi'])
      ++ (if tms' =? tms then [] else [drives (s tms_handle) tms'])
      ++ (if tck' =? tck then [] else [drives (s tck_handle) tck'])
  ∧ ∀ g, final r g
         = if bool_decide (g = last_tdi) then tdi'
           else if bool_decide (g = last_tms) then tms'
           else if bool_decide (g = last_tck) then tck'
           else s1 g.
Proof.
  cbv zeta. intros Hmode.
  rewrite (write_jtag_run tck tms tdi s Hmode). unfold final.
  cbn [fst snd].
  match goal with |- context [freebsdgpio_write _ _ _ ?t] =>
    set (s1 := t) end.
  assert (s1 swd_mode = 0) as Hmode1.
  { subst s1. store_simpl. by destruct (s first_time =? 0); store_simpl. }
  assert ((s1 first_time =? 0) = false) as Hfirst.
  { subst s1. store_simpl.
    destruct (s first_time =? 0) eqn:Hf; store_simpl; done. }
  assert (s1 last_tdi = tdi ∧ s1 last_tms = tms ∧ s1 last_tck = tck
          ∧ s1 tdi_handle = s tdi_handle ∧ s1 tms_handle = s tms_handle
          ∧ s1 tck_handle = s tck_handle)
    as (Hl1 & Hl2 & Hl3 & Hh1 & Hh2 & Hh3).
  { subst s1. store_simpl. by destruct (s first_time =? 0); store_simpl. }
  rewrite (write_jtag_run tck' tms' tdi' s1 Hmode1), Hfirst.
  rewrite Hl1, Hl2, Hl3, Hh1, Hh2, Hh3.
  unfold result, calls. cbn [fst snd orb].
  split; [done|]. split.
  { by destruct (tdi' =? tdi), (tms' =? tms), (tck' =? tck). }
  intros []; reflexivity.
Qed.

(** X14. SWD data direction: [freebsdgpio_swdio_drive] never makes the
    data pin an output (it calls [gpio_pin_input] in either direction)
    and forgets the cached levels: the next write makes the clock call
    whatever the levels were before, after the data call, which is made
    exactly when the line was switched to output. *)
Theorem swdio_drive_then_write (is_output : bool) (swclk swdio : Z)
    (s : globals) :
  let d := freebsdgpio_swdio_drive is_output s in
  let r := freebsdgpio_swdio_write swclk swdio (final d) in
  calls d
  = gpio_pin_input (s swdio_handle) (s swdio_gpio)
      :: (if is_output then [gpio_pin_high (s swdio_handle) (s swdio_gpio)]
          else [])
  ∧ calls r
    = (if is_output then [drives (s swdio_handle) swdio] else [])
      ++ [drives (s swclk_handle) swclk]
  ∧ final r last_stored = 1.
Proof.
  cbv zeta. rewrite swdio_write_run.
  unfold freebsdgpio_swdio_drive, calls, final. io_run.
  destruct is_output; io_run; store_simpl; done.
Qed.

(** X15. [freebsdgpio_write] in SWD mode ignores TMS, puts TDI on the data
    line and TCK on the clock line, clock last, and caches both levels:
    after one call the next call writes the data line exactly when the
    line is an output and the level differs, and the clock line exactly
    when its level differs. *)
Theorem write_after_write_swd (tck tms tdi tck' tms' tdi' : Z)
    (s : globals) :
  let s1 := final (freebsdgpio_write tck tms tdi s) in
  let r := freebsdgpio_write tck' tms' tdi' s1 in
  s swd_mode ≠ 0 →
  result r = ERROR_OK
  ∧ calls r
    = (if (s swdio_input =? 0) && negb (tdi' =? tdi)
       then [drives (s swdio_handle) tdi'] else [])
      ++ (if tck' =? tck then [] else [drives (s swclk_handle) tck'])
  ∧ ∀ g, final r g
         = if bool_decide (g = last_swdio) then tdi'
           else if bool_decide (g = last_swclk) then tck'
           else s1 g.
Proof.
  cbv zeta. intros Hmode. apply Z.eqb_neq in Hmode.
  unfold freebsdgpio_write. io_run. rewrite Hmode. cbn [negb].
  rewrite swdio_write_run. io_run. store_simpl. rewrite Hmode. cbn [negb].
  rewrite swdio_write_run. unfold result, calls, final. io_run.
  store_simpl. cbn [Z.eqb orb]. rewrite !app_nil_r.
  split; [done|]. split.
  { by destruct (s swdio_input =? 0), (tdi' =? tdi), (tck' =? tck). }
  intros []; reflexivity.
Qed.

(** X16. [freebsdgpio_reset] addresses one place only: every call it
    makes goes to the handle of SRST with the value of [trst] as pin
    number, also the call made for TRST.  It changes no variable and
    returns [ERROR_OK]; it makes no call when both handles are negative,
    and when both are not, its last call depends on [trst] alone. *)
Theorem reset_addresses_one_pin (trst srst : Z) (s : globals) :
  let r := freebsdgpio_reset trst srst s in
  result r = ERROR_OK ∧ final r = s
  ∧ Forall (λ c, c = gpio_pin_low (s srst_handle) trst
                 ∨ c = gpio_pin_high (s srst_handle) trst) (calls r)
  ∧ length (calls r)
    = (Nat.b2n (s srst_handle >=? 0) + Nat.b2n (s trst_handle >=? 0))%nat
  ∧ ((s trst_handle >=? 0) = true →
     ∃ before,
       calls r
       = before ++ [if negb (trst =? 0)
                    then gpio_pin_low (s srst_handle) trst
                    else gpio_pin_high (s srst_handle) trst]).
Proof.
  cbv zeta. unfold freebsdgpio_reset, result, final, calls.
  io_cases;
    (split; [done|]); (split; [done|]);
    (split; [repeat (apply Forall_cons; [by eauto|]); by apply Forall_nil|]);
    (split; [done|]);
    intros Hv; first [done | by eexists [_] | by exists []].
Qed.

End GpioProps.

(** ** Examples for the GPIO driver *)

Section GpioExamples.
Import Gpio.
#[local] Existing Instance sample_env.

(** The store after the four JTAG pins were set to 1, 2, 3 and 4. *)
Lemma init_configures_first_pin_witness :
  let s := <[tck_gpio:=1]> (<[tms_gpio:=2]> (<[tdi_gpio:=3]>
             (<[tdo_gpio:=4]> (initial 0)))) in
  freebsdgpio_jtag_mode_possible s || freebsdgpio_swd_mode_possible s = true
  ∧ calls (freebsdgpio_init 5 s) = [gpio_open 0; gpio_pin_output 5 1]
  ∧ final (freebsdgpio_init 5 s) tck_handle = -1.
Proof.
  intros s.
  destruct (init_configures_first_pin 5 s eq_refl)
    as (h & g & o & i & _ & _ & _ & Hjtag).
  split; [reflexivity|]. exact (Hjtag eq_refl).
Defined.

(** The first write after program start, in JTAG mode. *)
Lemma write_first_call_witness :
  initial 0 swd_mode = 0 ∧ initial 0 first_time = 0
  ∧ calls (freebsdgpio_write 0 1 0 (initial 0))
    = [gpio_pin_low (-1) 0; gpio_pin_high (-1) 1; gpio_pin_low (-1) 0].
Proof.
  split; [reflexivity|]. split; [reflexivity|].
  exact (proj1 (proj2 (write_first_call 0 1 0 (initial 0) eq_refl eq_refl))).
Defined.

(** A clock edge: only TCK differs from the call before. *)
Lemma write_after_write_witness :
  initial 0 swd_mode = 0
  ∧ calls (freebsdgpio_write 1 1 0
             (final (freebsdgpio_write 0 1 0 (initial 0))))
    = [gpio_pin_high (-1) 1].
Proof.
  split; [reflexivity|].
  exact (proj1 (proj2 (write_after_write 0 1 0 1 1 0 (initial 0) eq_refl))).
Defined.

(** The same clock edge in SWD mode, with another level of TMS. *)
Lemma write_after_write_swd_witness :
  initial 1 swd_mode = 1
  ∧ calls (freebsdgpio_write 1 0 0
             (final (freebsdgpio_write 0 1 0 (initial 1))))
    = [gpio_pin_high (-1) 1].
Proof.
  split; [reflexivity|].
  refine (proj1 (proj2 (write_after_write_swd 0 1 0 1 0 0 (initial 1) _))).
  discriminate.
Defined.

End GpioExamples.
